(** * Firmware signing and memory-image tools of the secure RISC-V SoC

    A shallow embedding of
    - [software/tools/sign_firmware.py] (HMAC-SHA256 signing of a firmware
      binary into a fixed-size image),
    - [software/tools/bin2hex.py] (binary to [$readmemh] text) and
    - [hardware/core/Processor/make_imem.py] (binary to Verilog
      initialisers),
    together with the library routines they call ([hashlib.sha256],
    [hmac.new], [struct.pack]/[struct.unpack] with format [<I],
    [bytes.fromhex], [int.from_bytes] and the [08x] format).

    Part I holds the definitions, Part II the lemmas and theorems about
    the layout, the MAC and the word lines, Part III further properties of
    the same programs. *)

From Stdlib Require Import Strings.Byte Strings.Ascii Strings.String.
From Stdlib Require Import ZArith List Lia Bool.
Import ListNotations.
Local Open Scope Z_scope.

(* ================================================================== *)
(** * Part I: the programs                                             *)
(* ================================================================== *)

(** ** Byte strings *)

(** Python [bytes] / [bytearray]: a list of octets. *)
Definition bytes : Type := list byte.

Definition byte_val (b : byte) : Z := Z.of_N (Byte.to_N b).

(** The octet with value [z mod 256]. *)
Definition byte_of_Z (z : Z) : byte :=
  match Byte.of_N (Z.to_N (z mod 256)) with
  | Some b => b
  | None => x00
  end.

(** [b'\x00' * n] *)
Definition zeros (n : nat) : bytes := repeat x00 n.

(** [l[i:j]] for indices [0 <= i <= j]; Python clamps at the end of [l]. *)
Definition slice {A : Type} (l : list A) (i j : nat) : list A :=
  firstn (j - i) (skipn i l).

(** Python [len], as an integer. *)
Definition len {A : Type} (l : list A) : Z := Z.of_nat (length l).

(** ** [hashlib.sha256] (FIPS 180-4) *)

Module SHA256.

Definition mask32 : Z := 0xFFFFFFFF.
Definition add32 (x y : Z) : Z := Z.land (x + y) mask32.
Definition rotr (n x : Z) : Z :=
  Z.lor (Z.shiftr x n) (Z.land (Z.shiftl x (32 - n)) mask32).
Definition shr (n x : Z) : Z := Z.shiftr x n.
Definition not32 (x : Z) : Z := Z.lxor x mask32.

Definition Ch (x y z : Z) : Z := Z.lxor (Z.land x y) (Z.land (not32 x) z).
Definition Maj (x y z : Z) : Z :=
  Z.lxor (Z.lxor (Z.land x y) (Z.land x z)) (Z.land y z).
Definition Sum0 (x : Z) : Z := Z.lxor (Z.lxor (rotr 2 x) (rotr 13 x)) (rotr 22 x).
Definition Sum1 (x : Z) : Z := Z.lxor (Z.lxor (rotr 6 x) (rotr 11 x)) (rotr 25 x).
Definition sig0 (x : Z) : Z := Z.lxor (Z.lxor (rotr 7 x) (rotr 18 x)) (shr 3 x).
Definition sig1 (x : Z) : Z := Z.lxor (Z.lxor (rotr 17 x) (rotr 19 x)) (shr 10 x).

(** Round constants, four per line. *)
Definition K : list Z :=
  [ 0x428A2F98; 0x71374491; 0xB5C0FBCF; 0xE9B5DBA5;
    0x3956C25B; 0x59F111F1; 0x923F82A4; 0xAB1C5ED5;
    0xD807AA98; 0x12835B01; 0x243185BE; 0x550C7DC3;
    0x72BE5D74; 0x80DEB1FE; 0x9BDC06A7; 0xC19BF174;
    0xE49B69C1; 0xEFBE4786; 0x0FC19DC6; 0x240CA1CC;
    0x2DE92C6F; 0x4A7484AA; 0x5CB0A9DC; 0x76F988DA;
    0x983E5152; 0xA831C66D; 0xB00327C8; 0xBF597FC7;
    0xC6E00BF3; 0xD5A79147; 0x06CA6351; 0x14292967;
    0x27B70A85; 0x2E1B2138; 0x4D2C6DFC; 0x53380D13;
    0x650A7354; 0x766A0ABB; 0x81C2C92E; 0x92722C85;
    0xA2BFE8A1; 0xA81A664B; 0xC24B8B70; 0xC76C51A3;
    0xD192E819; 0xD6990624; 0xF40E3585; 0x106AA070;
    0x19A4C116; 0x1E376C08; 0x2748774C; 0x34B0BCB5;
    0x391C0CB3; 0x4ED8AA4A; 0x5B9CCA4F; 0x682E6FF3;
    0x748F82EE; 0x78A5636F; 0x84C87814; 0x8CC70208;
    0x90BEFFFA; 0xA4506CEB; 0xBEF9A3F7; 0xC67178F2 ].

(** The eight working variables, also the chaining value. *)
Record regs : Type :=
  Regs { ra : Z; rb : Z; rc : Z; rd : Z; re : Z; rf : Z; rg : Z; rh : Z }.

Definition H_init : regs :=
  Regs 0x6A09E667 0xBB67AE85 0x3C6EF372 0xA54FF53A
       0x510E527F 0x9B05688C 0x1F83D9AB 0x5BE0CD19.

Definition round (s : regs) (k w : Z) : regs :=
  let t1 := add32 (add32 (add32 (add32 (rh s) (Sum1 (re s)))
                                (Ch (re s) (rf s) (rg s))) k) w in
  let t2 := add32 (Sum0 (ra s)) (Maj (ra s) (rb s) (rc s)) in
  Regs (add32 t1 t2) (ra s) (rb s) (rc s) (add32 (rd s) t1) (re s) (rf s) (rg s).

(** The message schedule is kept as a window of sixteen words, oldest
    first: [W(t) .. W(t+15)]; [slide] drops [W(t)] and appends [W(t+16)]. *)
Definition slide (w : list Z) : list Z :=
  let nw := add32 (add32 (add32 (sig1 (nth 14 w 0)) (nth 9 w 0))
                         (sig0 (nth 1 w 0))) (nth 0 w 0) in
  tl w ++ [nw].

Fixpoint rounds (ks : list Z) (w : list Z) (s : regs) : regs :=
  match ks with
  | [] => s
  | k :: ks' => rounds ks' (slide w) (round s k (nth 0 w 0))
  end.

Definition compress (h : regs) (block : list Z) : regs :=
  let s := rounds K block h in
  Regs (add32 (ra h) (ra s)) (add32 (rb h) (rb s))
       (add32 (rc h) (rc s)) (add32 (rd h) (rd s))
       (add32 (re h) (re s)) (add32 (rf h) (rf s))
       (add32 (rg h) (rg s)) (add32 (rh h) (rh s)).

(** Big-endian 32-bit words of a byte string. *)
Fixpoint be_words (l : bytes) : list Z :=
  match l with
  | b0 :: b1 :: b2 :: b3 :: t =>
      Z.lor (Z.shiftl (byte_val b0) 24)
        (Z.lor (Z.shiftl (byte_val b1) 16)
           (Z.lor (Z.shiftl (byte_val b2) 8) (byte_val b3)))
      :: be_words t
  | _ => []
  end.

(** [v] as [n] bytes, most significant first. *)
Definition be_bytes (n : nat) (v : Z) : bytes :=
  map (fun i => byte_of_Z (Z.shiftr v (8 * Z.of_nat i))) (rev (seq 0 n)).

(** A hash object: chaining value, pending bytes (fewer than 64) and the
    number of bytes absorbed so far. *)
Record hasher : Type :=
  Hasher { h_state : regs; h_buffer : bytes; h_count : Z }.

Definition new : hasher := Hasher H_init [] 0.

Definition feed (s : hasher) (b : byte) : hasher :=
  let buf := h_buffer s ++ [b] in
  if (length buf =? 64)%nat
  then Hasher (compress (h_state s) (be_words buf)) [] (h_count s + 1)
  else Hasher (h_state s) buf (h_count s + 1).

(** [h.update(data)] *)
Definition update (s : hasher) (data : bytes) : hasher := fold_left feed data s.

(** The padding of a message of [count] bytes: 0x80, zeros up to 56 mod
    64, and the bit length on eight bytes. *)
Definition trailer (count : Z) : bytes :=
  x80 :: zeros (Z.to_nat ((55 - count) mod 64)) ++ be_bytes 8 (8 * count).

Definition regs_bytes (h : regs) : bytes :=
  concat (map (be_bytes 4) [ra h; rb h; rc h; rd h; re h; rf h; rg h; rh h]).

(** [h.digest()]; the object itself is left as it was. *)
Definition digest (s : hasher) : bytes :=
  regs_bytes (h_state (update s (trailer (h_count s)))).

(** [hashlib.sha256(data).digest()] *)
Definition sha256 (data : bytes) : bytes := digest (update new data).

End SHA256.

(** ** [hmac.new(key, msg, hashlib.sha256).digest()] (RFC 2104) *)

Module HMAC.

Definition block_size : nat := 64.

(** [bytes.translate] with the table [x ^ c]. *)
Definition xor_byte (c : Z) (b : byte) : byte := byte_of_Z (Z.lxor (byte_val b) c).

(** Keys longer than a block are hashed, shorter ones zero-filled
    ([ljust]). *)
Definition block_key (key : bytes) : bytes :=
  let key := if (block_size <? length key)%nat then SHA256.sha256 key else key in
  key ++ zeros (block_size - length key).

Definition inner (key msg : bytes) : SHA256.hasher :=
  SHA256.update (SHA256.update SHA256.new (map (xor_byte 0x36) (block_key key))) msg.

Definition outer (key : bytes) : SHA256.hasher :=
  SHA256.update SHA256.new (map (xor_byte 0x5C) (block_key key)).

Definition hmac_sha256 (key msg : bytes) : bytes :=
  SHA256.digest (SHA256.update (outer key) (SHA256.digest (inner key msg))).

End HMAC.

(** ** [struct] with format [<I], [int.from_bytes], [bytes.fromhex] *)

Module Struct.

(** [v] as [n] bytes, least significant first. *)
Definition le_bytes (n : nat) (v : Z) : bytes :=
  map (fun i => byte_of_Z (Z.shiftr v (8 * Z.of_nat i))) (seq 0 n).

(** [int.from_bytes(w, byteorder='little')] *)
Fixpoint int_from_bytes_little (w : bytes) : Z :=
  match w with
  | [] => 0
  | b :: t => byte_val b + 256 * int_from_bytes_little t
  end.

(** [struct.pack('<I', v)]: [None] stands for [struct.error], raised
    when [v] is not in [0, 2^32). *)
Definition pack_u32 (v : Z) : option bytes :=
  if (0 <=? v) && (v <=? 0xFFFFFFFF) then Some (le_bytes 4 v) else None.

(** [struct.pack('<II..I', v1, .., vn)] *)
Fixpoint pack_u32s (vs : list Z) : option bytes :=
  match vs with
  | [] => Some []
  | v :: t =>
      match pack_u32 v, pack_u32s t with
      | Some b, Some bs => Some (b ++ bs)
      | _, _ => None
      end
  end.

(** [struct.unpack('<I', w)[0]]: [struct.error] unless [w] has four
    bytes. *)
Definition unpack_u32 (w : bytes) : option Z :=
  if (length w =? 4)%nat then Some (int_from_bytes_little w) else None.

End Struct.

Module Hex.

(** ASCII white space, skipped by [bytes.fromhex] between byte pairs. *)
Definition is_space (c : ascii) : bool :=
  let n := Z.of_N (N_of_ascii c) in
  ((9 <=? n) && (n <=? 13)) || (n =? 32).

Definition hex_digit (c : ascii) : option Z :=
  let n := Z.of_N (N_of_ascii c) in
  if (48 <=? n) && (n <=? 57) then Some (n - 48)
  else if (97 <=? n) && (n <=? 102) then Some (n - 87)
  else if (65 <=? n) && (n <=? 70) then Some (n - 55)
  else None.

(** [bytes.fromhex(s)]: [None] stands for [ValueError]. Two hex digits
    per byte, the pair not split by white space. *)
Fixpoint fromhex (s : string) : option bytes :=
  match s with
  | EmptyString => Some []
  | String c s' =>
      if is_space c then fromhex s'
      else
        match hex_digit c, s' with
        | Some top, String d s'' =>
            match hex_digit d, fromhex s'' with
            | Some bot, Some rest => Some (byte_of_Z (16 * top + bot) :: rest)
            | _, _ => None
            end
        | _, _ => None
        end
  end.

(** Digits of Python's integer formatting, lower case. *)
Definition digit_char (d : Z) : ascii :=
  ascii_of_N (Z.to_N (if d <? 10 then 48 + d else 87 + d)).

Fixpoint digits (base : Z) (fuel : nat) (n : Z) : string :=
  match fuel with
  | O => EmptyString
  | S fuel' =>
      if n <? base then String (digit_char n) EmptyString
      else String.append (digits base fuel' (n / base))
                         (String (digit_char (n mod base)) EmptyString)
  end.

(** One digit per bit is always enough. *)
Definition digit_fuel (n : Z) : nat := S (Z.to_nat (Z.log2 n)).

(** [str(n)] for [n >= 0]. *)
Definition str (n : Z) : string := digits 10 (digit_fuel n) n.

(** [format(n, 'x')] for [n >= 0]. *)
Definition format_x (n : Z) : string := digits 16 (digit_fuel n) n.

Fixpoint fill (n : nat) (c : ascii) : string :=
  match n with
  | O => EmptyString
  | S n' => String c (fill n' c)
  end.

(** [f"{n:08x}"] for [n >= 0]: at least eight digits, zero-filled on the
    left. *)
Definition format_08x (n : Z) : string :=
  let s := format_x n in
  String.append (fill (8 - String.length s) "0"%char) s.

End Hex.

(** [range(start, stop, step)] for [step > 0]. *)
Definition range (start stop step : Z) : list Z :=
  map (fun k => start + step * Z.of_nat k)
      (seq 0 (Z.to_nat ((stop - start + step - 1) / step))).

(** The line terminator written by [print] and by ["\n"]. *)
Definition nl : string := String (ascii_of_N 10) EmptyString.

(** ** [sign_firmware.py] *)

Module SignFirmware.

(** What a run reads from its surroundings. *)
Record env : Type := Env {
  firmware_file : option bytes;  (** contents at [firmware_path], if it exists *)
  now : Z;                       (** [int(datetime.now().timestamp())] *)
  output_writable : bool         (** whether writing [output_path] succeeds *)
}.

(** What a run does that is visible from outside, in order. *)
Inductive event : Type :=
| HmacDigest (key data : bytes)  (** [hmac.new(key, data, sha256).digest()] *)
| FileWrite (data : bytes).      (** [f.write(data)] on [output_path] *)

(** The diagnostics printed before [sys.exit(1)], with the numbers they
    report. In the specification's taxonomy [FirmwareTooLarge] is
    PayloadTooLarge, [KeyNot256Bits] is InvalidKeyLength, [InvalidHexKey]
    is MalformedKeyEncoding, and the two file errors are IOFailure. *)
Inductive exit_reason : Type :=
| FirmwareNotFound
| FirmwareTooLarge (current_size maximum_size overflow : Z)
| KeyNot256Bits (provided_bits hex_chars : Z)
| InvalidHexKey
| WriteFailed.

Inductive outcome : Type :=
| Returned                       (** the function runs to its end *)
| SysExit (r : exit_reason)      (** [sys.exit(1)] after a diagnostic *)
| StructError.                   (** uncaught [struct.error] *)

(** Computations that log events and may stop early. *)
Definition M (A : Type) : Type := (list event * (outcome + A))%type.

Definition ret {A : Type} (a : A) : M A := ([], inr a).

Definition bind {A B : Type} (m : M A) (f : A -> M B) : M B :=
  match m with
  | (l, inl o) => (l, inl o)
  | (l, inr a) => let (l', r) := f a in (l ++ l', r)
  end.

Definition stop {A : Type} (o : outcome) : M A := ([], inl o).
Definition emit (e : event) : M unit := ([e], inr tt).

Notation "x <- m ;; k" := (bind m (fun x => k))
  (at level 61, m at next level, right associativity).
Notation "m ;;; k" := (bind m (fun _ => k))
  (at level 61, right associativity).

Definition finish (m : M unit) : list event * outcome :=
  match m with
  | (l, inl o) => (l, o)
  | (l, inr _) => (l, Returned)
  end.

(** [struct.pack], an uncaught [struct.error] when a value does not fit. *)
Definition struct_pack (vs : list Z) : M bytes :=
  match Struct.pack_u32s vs with
  | Some b => ret b
  | None => stop StructError
  end.

Definition struct_unpack (w : bytes) : M Z :=
  match Struct.unpack_u32 w with
  | Some v => ret v
  | None => stop StructError
  end.

(** Header will be at offset 0xFFC0 (65472). *)
Definition header_offset : Z := 0xFFC0.
Definition magic : Z := 0xDEADBEEF.
Definition entry_point : Z := 0x00010000.

(** Lines 35-40: the firmware binary is read whole. *)
Definition read_firmware (e : env) : M bytes :=
  match firmware_file e with
  | Some d => ret d
  | None => stop (SysExit FirmwareNotFound)
  end.

(** Lines 85-93. [sys.exit] inside the [try] is not a [ValueError], so
    the length diagnostic is the one that ends the run. *)
Definition decode_key (key_hex : string) : M bytes :=
  match Hex.fromhex key_hex with
  | Some key =>
      if negb (len key =? 32)
      then stop (SysExit (KeyNot256Bits (len key * 8)
                                        (Z.of_nat (String.length key_hex))))
      else ret key
  | None => stop (SysExit InvalidHexKey)
  end.

(** Line 105. *)
Definition hmac_digest (key data : bytes) : M bytes :=
  emit (HmacDigest key data) ;;;
  ret (HMAC.hmac_sha256 key data).

(** One pass of the loop of lines 111-114. *)
Definition append_word (mac : bytes) (acc : M (list Z * bytes)) (i : nat)
  : M (list Z * bytes) :=
  st <- acc ;;
  word <- struct_unpack (slice mac (i * 4) ((i + 1) * 4)) ;;
  packed <- struct_pack [word] ;;
  ret (fst st ++ [word], snd st ++ packed).

(** Lines 123-129. *)
Definition write_output (e : env) (signed_firmware : bytes) : M unit :=
  if output_writable e
  then emit (FileWrite signed_firmware)
  else stop (SysExit WriteFailed).

Definition sign_firmware (e : env) (key_hex : string) (version : Z)
  : list event * outcome :=
  finish (
    firmware_data <- read_firmware e ;;
    (if len firmware_data >? header_offset
     then stop (SysExit (FirmwareTooLarge (len firmware_data) header_offset
                                          (len firmware_data - header_offset)))
     else ret tt) ;;;
    let padding_needed := header_offset - len firmware_data in
    let firmware_data := firmware_data ++ zeros (Z.to_nat padding_needed) in
    let length := len firmware_data in
    let timestamp := now e in
    header <- struct_pack [magic; version; length; entry_point; timestamp; 0] ;;
    reserved <- struct_pack [0; 0] ;;
    let header := header ++ reserved in
    key <- decode_key key_hex ;;
    let data_to_sign := firmware_data ++ header in
    mac <- hmac_digest key data_to_sign ;;
    signed <- fold_left (append_word mac) (seq 0 8) (ret ([], header)) ;;
    let header := snd signed in
    let signed_firmware := firmware_data ++ header in
    write_output e signed_firmware).

(** The image a run wrote to [output_path], if it wrote one. *)
Fixpoint image_of (l : list event) : option bytes :=
  match l with
  | [] => None
  | FileWrite img :: _ => Some img
  | _ :: t => image_of t
  end.

(** The key and message of the run's MAC computation, if it made one. *)
Fixpoint mac_input_of (l : list event) : option (bytes * bytes) :=
  match l with
  | [] => None
  | HmacDigest key data :: _ => Some (key, data)
  | _ :: t => mac_input_of t
  end.

End SignFirmware.

(** ** [bin2hex.py] *)

Module Bin2Hex.

(** [word[k]]; [None] stands for [IndexError]. *)
Definition item (word : bytes) (k : nat) : option Z :=
  option_map byte_val (nth_error word k).

(** Lines 32-36: the text written for the word at byte offset [i]. *)
Definition word_line (data : bytes) (i : Z) : option string :=
  let word := slice data (Z.to_nat i) (Z.to_nat (i + 4)) in
  match item word 0, item word 1, item word 2, item word 3 with
  | Some w0, Some w1, Some w2, Some w3 =>
      let word_val :=
        Z.lor (Z.lor (Z.lor w0 (Z.shiftl w1 8)) (Z.shiftl w2 16)) (Z.shiftl w3 24) in
      Some (String.append (Hex.format_08x word_val) nl)
  | _, _, _, _ => None
  end.

(** The first loop, lines 30-36: the strings written, in order. *)
Fixpoint data_lines (data : bytes) (num_words : Z) (offsets : list Z)
  : option (list string) :=
  match offsets with
  | [] => Some []
  | i :: rest =>
      if i / 4 <? num_words
      then match word_line data i, data_lines data num_words rest with
           | Some l, Some ls => Some (l :: ls)
           | _, _ => None
           end
      else data_lines data num_words rest
  end.

(** [bin2hex(bin_file, hex_file, num_words)] on the contents [data] of
    [bin_file]: the strings written to [hex_file], in order. *)
Definition bin2hex (data : bytes) (num_words : option Z) : option (list string) :=
  let data :=
    if negb (len data mod 4 =? 0)
    then data ++ zeros (Z.to_nat (4 - len data mod 4))
    else data in
  let actual_words := len data / 4 in
  let num_words :=
    match num_words with
    | None => actual_words
    | Some n => n
    end in
  match data_lines data num_words (range 0 (len data) 4) with
  | Some ls =>
      Some (ls ++ map (fun _ => String.append "00000000" nl)
                      (range actual_words num_words 1))
  | None => None
  end.

End Bin2Hex.

(** ** [make_imem.py] *)

Module MakeImem.

(** The line printed for the word at byte offset [i]. *)
Definition imem_line (b : bytes) (i : Z) : string :=
  let w := slice b (Z.to_nat i) (Z.to_nat (i + 4)) in
  let w := if len w <? 4 then w ++ zeros (Z.to_nat (4 - len w)) else w in
  let val := Struct.int_from_bytes_little w in
  String.append "    memory["
    (String.append (Hex.str (i / 4))
       (String.append "] = 32'h"
          (String.append (Hex.format_08x val) (String.append ";" nl)))).

(** The lines printed for the binary [b], in order. *)
Definition make_imem (b : bytes) : list string :=
  map (imem_line b) (range 0 (len b) 4).

End MakeImem.

(** ** The image layout and the boot-time check *)

Module Image.
Import SignFirmware.

(** The payload zero-padded up to the header offset (lines 56-57). *)
Definition padded_payload (fw : bytes) : bytes :=
  fw ++ zeros (Z.to_nat (header_offset - len fw)).

(** The eight header words that precede the signature, each on four
    bytes, least significant byte first. *)
Definition header_words (version timestamp : Z) : list Z :=
  [magic; version; header_offset; entry_point; timestamp; 0; 0; 0].

Definition header_fields (version timestamp : Z) : bytes :=
  concat (map (Struct.le_bytes 4) (header_words version timestamp)).

(** The 64-byte header whose signature slot holds eight zero words. *)
Definition unsigned_header (version timestamp : Z) : bytes :=
  header_fields version timestamp ++ zeros 32.

Definition payload_region (img : bytes) : bytes :=
  firstn (Z.to_nat header_offset) img.

Definition header_region (img : bytes) : bytes :=
  skipn (Z.to_nat header_offset) img.

(** The signature field: the header from its byte 32 on. *)
Definition embedded_signature (img : bytes) : bytes :=
  skipn 32 (header_region img).

(** The 32-bit little-endian word at byte offset [off]. *)
Definition u32_at (img : bytes) (off : nat) : option Z :=
  Struct.unpack_u32 (slice img off (off + 4)).

(** The eight words read back from a 32-byte digest (line 112). *)
Definition digest_words (mac : bytes) : list Z :=
  map (fun i => Struct.int_from_bytes_little (slice mac (i * 4) ((i + 1) * 4)))
      (seq 0 8).

(** The boot-time check as the specification words it (section 6): a
    copy of the header with the signature field zeroed ... *)
Definition zero_signature (hdr : bytes) : bytes := firstn 32 hdr ++ zeros 32.

(** ... and the MAC recomputed over payload and
    header-with-zeroed-signature. *)
Definition verifier_mac (key img : bytes) : bytes :=
  HMAC.hmac_sha256 key (payload_region img ++ zero_signature (header_region img)).

(** The recomputation that matches the signer: payload and the header
    without its signature field. *)
Definition signer_mac (key img : bytes) : bytes :=
  HMAC.hmac_sha256 key (payload_region img ++ firstn 32 (header_region img)).

End Image.

(** ** Words of a padded buffer, as the conversion tools print them *)

Module Words.

(** The buffer zero-padded to a multiple of four bytes. *)
Definition pad4 (data : bytes) : bytes :=
  data ++ zeros ((4 - length data mod 4) mod 4).

(** The little-endian value of bytes [4i .. 4i+3]. *)
Definition le_word (buf : bytes) (i : nat) : Z :=
  byte_val (nth (4 * i) buf x00)
  + 256 * byte_val (nth (4 * i + 1) buf x00)
  + 65536 * byte_val (nth (4 * i + 2) buf x00)
  + 16777216 * byte_val (nth (4 * i + 3) buf x00).

Definition word_count (buf : bytes) : nat := length buf / 4.

(** The value of a string of lower-case hexadecimal digits. *)
Definition digit_value (c : ascii) : Z :=
  match Hex.hex_digit c with
  | Some d => d
  | None => 0
  end.

Fixpoint value_from (base acc : Z) (s : string) : Z :=
  match s with
  | EmptyString => acc
  | String c s' => value_from base (base * acc + digit_value c) s'
  end.

Definition hex_value (s : string) : Z := value_from 16 0 s.
Definition dec_value (s : string) : Z := value_from 10 0 s.

(** The line [bin2hex] writes for word [k] of [buf]: eight hexadecimal
    digits and a line end. *)
Definition hex_line (buf : bytes) (k : nat) : string :=
  String.append (Hex.format_08x (le_word buf k)) nl.

(** The filler line of [bin2hex]. *)
Definition zero_line : string := String.append "00000000" nl.

(** The assignment [make_imem] prints for word [k] of [buf]. *)
Definition imem_text (buf : bytes) (k : nat) : string :=
  String.append "    memory["
    (String.append (Hex.str (Z.of_nat k))
       (String.append "] = 32'h"
          (String.append (Hex.format_08x (le_word buf k))
             (String.append ";" nl)))).

End Words.

(** ** A worked scenario

    Payload of eight zero bytes, version 1, key of thirty-two bytes 0x01,
    signed at Unix time 1700000000. *)

Module Scenario.
Import SignFirmware.

Definition payload : bytes := zeros 8.
Definition key : bytes := repeat x01 32.
Definition key_hex : string :=
  "0101010101010101010101010101010101010101010101010101010101010101".
Definition timestamp : Z := 1700000000.
Definition version : Z := 1.
Definition env : SignFirmware.env := Env (Some payload) timestamp true.

(** The same key written with blanks between its bytes. *)
Definition key_hex_spaced : string :=
  "01010101 01010101 01010101 01010101 01010101 01010101 01010101 01010101".

(** A firmware one byte over the limit, and keys of 31 and 33 bytes. *)
Definition oversize_env : SignFirmware.env :=
  Env (Some (zeros (Z.to_nat (header_offset + 1)))) timestamp true.
Definition key_hex_31 : string :=
  "01010101010101010101010101010101010101010101010101010101010101".
Definition key_hex_33 : string :=
  "010101010101010101010101010101010101010101010101010101010101010101".

End Scenario.

(** ** The gates of [sign_firmware], in their order *)

Module Gates.
Import SignFirmware.

(** The range test of [struct.pack] for [<I]. *)
Definition fits_u32 (v : Z) : bool := (0 <=? v) && (v <=? 0xFFFFFFFF).

(** Line 68 prints [version] in decimal before the header is packed.
    The interpreter refuses to turn an integer of more than 4300 digits
    into text ([ValueError], the default of [sys.set_int_max_str_digits]);
    the sign is not counted. *)
Definition max_str_digits : nat := 4300.

Definition str_allowed (v : Z) : bool :=
  (String.length (Hex.str (Z.abs v)) <=? max_str_digits)%nat.

(** What a run does, gate by gate: file, size, 32-bit header fields, key
    text, key length, output. *)
Definition run_table (e : env) (key_hex : string) (version : Z)
  : list event * outcome :=
  match firmware_file e with
  | None => ([], SysExit FirmwareNotFound)
  | Some fw =>
      if len fw >? header_offset
      then ([], SysExit (FirmwareTooLarge (len fw) header_offset
                           (len fw - header_offset)))
      else if negb (fits_u32 version && fits_u32 (now e))
      then ([], StructError)
      else
        match Hex.fromhex key_hex with
        | None => ([], SysExit InvalidHexKey)
        | Some key =>
            if negb (len key =? 32)
            then ([], SysExit (KeyNot256Bits (len key * 8)
                                 (Z.of_nat (String.length key_hex))))
            else
              let data_to_sign :=
                Image.padded_payload fw
                ++ Image.header_fields version (now e) in
              if output_writable e
              then ([HmacDigest key data_to_sign;
                     FileWrite (data_to_sign
                                ++ HMAC.hmac_sha256 key data_to_sign)],
                    Returned)
              else ([HmacDigest key data_to_sign], SysExit WriteFailed)
        end
  end.

End Gates.

(** ** [bytes.hex] and strings of hexadecimal digits *)

Module HexText.

(** [b.hex()]: two lower-case digits per byte, high nibble first. *)
Fixpoint hex (b : bytes) : string :=
  match b with
  | [] => EmptyString
  | x :: t =>
      String (Hex.digit_char (byte_val x / 16))
        (String (Hex.digit_char (byte_val x mod 16)) (hex t))
  end.

(** Whether every character is one of [0-9a-fA-F]. *)
Fixpoint all_hex_digits (s : string) : bool :=
  match s with
  | EmptyString => true
  | String c s' =>
      match Hex.hex_digit c with
      | Some _ => all_hex_digits s'
      | None => false
      end
  end.

End HexText.

(** ** Inputs used as witnesses *)

Module Samples.
Import SignFirmware.

(** The scenario on a read-only output. *)
Definition read_only_env : SignFirmware.env :=
  Env (Some Scenario.payload) Scenario.timestamp false.

(** The image the scenario run writes. *)
Definition scenario_data : bytes :=
  Image.padded_payload Scenario.payload
  ++ Image.header_fields Scenario.version Scenario.timestamp.

Definition scenario_image : bytes :=
  scenario_data ++ HMAC.hmac_sha256 Scenario.key scenario_data.

(** The written image taken as the firmware of a second run. *)
Definition resign_env : SignFirmware.env :=
  Env (Some scenario_image) Scenario.timestamp true.

(** The scenario's firmware with one more zero byte. *)
Definition longer_env : SignFirmware.env :=
  Env (Some (Scenario.payload ++ zeros 1)) Scenario.timestamp true.

(** A three-byte firmware. *)
Definition short_env : SignFirmware.env :=
  Env (Some [x01; x02; x03]) Scenario.timestamp true.

End Samples.

(** ** Reading the tools' text back *)

Module Readback.

(** The word on a line of [bin2hex]: the value of its first eight
    characters. *)
Definition word_of_line (l : string) : Z := Words.hex_value (substring 0 8 l).

(** The bytes a list of such lines stands for, four per line, least
    significant first. *)
Definition bytes_of_lines (ls : list string) : bytes :=
  concat (map (fun l => Struct.le_bytes 4 (word_of_line l)) ls).

(** The assignment [make_imem] prints for index [i] and word value [w]. *)
Definition imem_entry (i : nat) (w : Z) : string :=
  String.append "    memory["
    (String.append (Hex.str (Z.of_nat i))
       (String.append "] = 32'h"
          (String.append (Hex.format_08x w) (String.append ";" nl)))).

(** The index and the word of such an assignment: the decimal digits after
    the eleven characters of ["    memory["], and the eight hexadecimal
    digits before the closing [";"] and line end. *)
Definition index_of_entry (l : string) : Z :=
  Words.dec_value (substring 11 (String.length l - 29) l).

Definition word_of_entry (l : string) : Z :=
  Words.hex_value (substring (String.length l - 10) 8 l).

End Readback.

(* ================================================================== *)
(** * Part II: properties                                              *)
(* ================================================================== *)

(** ** Bytes and little-endian words *)

Lemma byte_val_range (b : byte) : 0 <= byte_val b < 256.
Proof.
  unfold byte_val. pose proof (Byte.to_N_bounded b). lia.
Qed.

Lemma byte_of_val (b : byte) : byte_of_Z (byte_val b) = b.
Proof.
  unfold byte_of_Z. pose proof (byte_val_range b) as R.
  rewrite Z.mod_small by exact R.
  unfold byte_val. rewrite N2Z.id, Byte.of_to_N. reflexivity.
Qed.

Lemma byte_val_of (z : Z) : byte_val (byte_of_Z z) = z mod 256.
Proof.
  unfold byte_of_Z, byte_val.
  pose proof (Z.mod_pos_bound z 256 ltac:(lia)) as R.
  pose proof (Byte.to_of_N_option_map (Z.to_N (z mod 256))) as E.
  destruct (Byte.of_N (Z.to_N (z mod 256))) as [b|]; cbn [option_map] in E.
  - destruct (N.leb_spec (Z.to_N (z mod 256)) 255) as [_|L]; [|lia].
    injection E as E. rewrite E. lia.
  - destruct (N.leb_spec (Z.to_N (z mod 256)) 255) as [_|L]; [discriminate|lia].
Qed.

Lemma zeros_length (n : nat) : length (zeros n) = n.
Proof. apply repeat_length. Qed.

Lemma le_bytes_length (n : nat) (v : Z) : length (Struct.le_bytes n v) = n.
Proof. unfold Struct.le_bytes. now rewrite length_map, length_seq. Qed.

Lemma le_bytes_S (n : nat) (v : Z) :
  Struct.le_bytes (S n) v = byte_of_Z v :: Struct.le_bytes n (v / 256).
Proof.
  unfold Struct.le_bytes. cbn [seq map]. f_equal.
  rewrite <- seq_shift, map_map. apply map_ext. intro i.
  replace (8 * Z.of_nat (S i)) with (8 + 8 * Z.of_nat i) by lia.
  rewrite <- Z.shiftr_shiftr by lia.
  f_equal. f_equal. now rewrite Z.shiftr_div_pow2 by lia.
Qed.

Lemma int_from_bytes_range (w : bytes) :
  0 <= Struct.int_from_bytes_little w < 256 ^ Z.of_nat (length w).
Proof.
  induction w as [|b t IH]; cbn [Struct.int_from_bytes_little length].
  - cbn. lia.
  - rewrite Nat2Z.inj_succ, Z.pow_succ_r by lia.
    pose proof (byte_val_range b). lia.
Qed.

(** Serialising the value of a byte group gives the group back. *)
Lemma le_bytes_from_bytes (w : bytes) :
  Struct.le_bytes (length w) (Struct.int_from_bytes_little w) = w.
Proof.
  induction w as [|b t IH]; [reflexivity|].
  cbn [length Struct.int_from_bytes_little]. rewrite le_bytes_S.
  pose proof (byte_val_range b) as R.
  assert (Em : (byte_val b + 256 * Struct.int_from_bytes_little t) mod 256
               = byte_val b) by (Z.div_mod_to_equations; lia).
  assert (Ed : (byte_val b + 256 * Struct.int_from_bytes_little t) / 256
               = Struct.int_from_bytes_little t) by (Z.div_mod_to_equations; lia).
  rewrite Ed, IH. f_equal.
  rewrite <- (byte_of_val b) at 2. unfold byte_of_Z.
  rewrite Em, (Z.mod_small (byte_val b)) by exact R. reflexivity.
Qed.

(** Reading the serialisation of a value gives the value back. *)
Lemma int_from_le_bytes (n : nat) (v : Z) :
  0 <= v < 256 ^ Z.of_nat n ->
  Struct.int_from_bytes_little (Struct.le_bytes n v) = v.
Proof.
  revert v. induction n as [|n IH]; intros v R.
  - cbn in *. lia.
  - rewrite le_bytes_S. cbn [Struct.int_from_bytes_little].
    rewrite byte_val_of, IH.
    + pose proof (Z.div_mod v 256 ltac:(lia)). lia.
    + rewrite Nat2Z.inj_succ, Z.pow_succ_r in R by lia.
      split; [apply Z.div_pos; lia|].
      apply Z.div_lt_upper_bound; lia.
Qed.

Lemma pack_u32_ok (v : Z) :
  0 <= v < 2 ^ 32 -> Struct.pack_u32 v = Some (Struct.le_bytes 4 v).
Proof.
  intro R. unfold Struct.pack_u32.
  destruct (Z.leb_spec 0 v); [|lia].
  destruct (Z.leb_spec v 0xFFFFFFFF); [reflexivity|lia].
Qed.

Lemma unpack_u32_ok (w : bytes) :
  length w = 4%nat -> Struct.unpack_u32 w = Some (Struct.int_from_bytes_little w).
Proof. intro L. unfold Struct.unpack_u32. now rewrite L. Qed.

(** Line 112 followed by line 114: unpack then pack is the identity on a
    four-byte group. *)
Lemma pack_unpack_group (w : bytes) :
  length w = 4%nat ->
  Struct.pack_u32 (Struct.int_from_bytes_little w) = Some w.
Proof.
  intro L. pose proof (int_from_bytes_range w) as R. rewrite L in R.
  rewrite pack_u32_ok by (change (256 ^ Z.of_nat 4) with (2 ^ 32) in R; exact R).
  f_equal. rewrite <- L at 1. apply le_bytes_from_bytes.
Qed.

Lemma unpack_pack_word (v : Z) :
  0 <= v < 2 ^ 32 ->
  Struct.unpack_u32 (Struct.le_bytes 4 v) = Some v.
Proof.
  intro R. rewrite unpack_u32_ok by apply le_bytes_length.
  f_equal. apply int_from_le_bytes. exact R.
Qed.

(** ** SHA-256 and HMAC: digest size and streaming *)

Lemma be_bytes_length (n : nat) (v : Z) : length (SHA256.be_bytes n v) = n.
Proof. unfold SHA256.be_bytes. now rewrite length_map, length_rev, length_seq. Qed.

Lemma digest_length (s : SHA256.hasher) : length (SHA256.digest s) = 32%nat.
Proof.
  unfold SHA256.digest, SHA256.regs_bytes. cbn [map concat].
  rewrite !length_app, !be_bytes_length. reflexivity.
Qed.

Lemma hmac_length (key msg : bytes) : length (HMAC.hmac_sha256 key msg) = 32%nat.
Proof. apply digest_length. Qed.

(** Feeding a message in two pieces is feeding it whole. *)
Lemma update_app (s : SHA256.hasher) (a b : bytes) :
  SHA256.update s (a ++ b) = SHA256.update (SHA256.update s a) b.
Proof. apply fold_left_app. Qed.

Lemma hmac_split (key a b : bytes) :
  HMAC.hmac_sha256 key (a ++ b)
  = SHA256.digest (SHA256.update (HMAC.outer key)
                     (SHA256.digest (SHA256.update (HMAC.inner key a) b))).
Proof. unfold HMAC.hmac_sha256, HMAC.inner. now rewrite update_app. Qed.

(** Known answers: FIPS 180-4 ("abc") and RFC 4231, test case 1. *)
Example sha256_abc :
  map byte_val (SHA256.sha256 [x61; x62; x63])
  = [0xba; 0x78; 0x16; 0xbf; 0x8f; 0x01; 0xcf; 0xea;
     0x41; 0x41; 0x40; 0xde; 0x5d; 0xae; 0x22; 0x23;
     0xb0; 0x03; 0x61; 0xa3; 0x96; 0x17; 0x7a; 0x9c;
     0xb4; 0x10; 0xff; 0x61; 0xf2; 0x00; 0x15; 0xad].
Proof. vm_compute. reflexivity. Qed.

Example hmac_rfc4231_case1 :
  map byte_val
    (HMAC.hmac_sha256 (repeat x0b 20) [x48; x69; x20; x54; x68; x65; x72; x65])
  = [0xb0; 0x34; 0x4c; 0x61; 0xd8; 0xdb; 0x38; 0x53;
     0x5c; 0xa8; 0xaf; 0xce; 0xaf; 0x0b; 0xf1; 0x2b;
     0x88; 0x1d; 0xc2; 0x00; 0xc9; 0x83; 0x3d; 0xa7;
     0x26; 0xe9; 0x37; 0x6c; 0x2e; 0x32; 0xcf; 0xf7].
Proof. vm_compute. reflexivity. Qed.

(** ** The monad of [sign_firmware] *)

Lemma bind_ret {A B : Type} (a : A) (f : A -> SignFirmware.M B) :
  SignFirmware.bind (SignFirmware.ret a) f = f a.
Proof. unfold SignFirmware.bind, SignFirmware.ret. now destruct (f a). Qed.

Lemma bind_stop {A B : Type} (o : SignFirmware.outcome) (f : A -> SignFirmware.M B) :
  SignFirmware.bind (SignFirmware.stop o) f = SignFirmware.stop o.
Proof. reflexivity. Qed.

Lemma pack_u32s_ok (vs : list Z) :
  Forall (fun v => 0 <= v < 2 ^ 32) vs ->
  Struct.pack_u32s vs = Some (concat (map (Struct.le_bytes 4) vs)).
Proof.
  induction 1 as [|v t R _ IH]; [reflexivity|].
  cbn [Struct.pack_u32s map concat]. now rewrite pack_u32_ok, IH.
Qed.

Lemma struct_pack_ok (vs : list Z) :
  Forall (fun v => 0 <= v < 2 ^ 32) vs ->
  SignFirmware.struct_pack vs
  = SignFirmware.ret (concat (map (Struct.le_bytes 4) vs)).
Proof. intro F. unfold SignFirmware.struct_pack. now rewrite pack_u32s_ok. Qed.

Lemma slice_length_4 (mac : bytes) (i : nat) :
  length mac = 32%nat -> (i < 8)%nat ->
  length (slice mac (i * 4) ((i + 1) * 4)) = 4%nat.
Proof.
  intros L I. unfold slice. rewrite length_firstn, length_skipn. lia.
Qed.

Lemma append_word_step (mac : bytes) (ws : list Z) (hdr : bytes) (i : nat) :
  length (slice mac (i * 4) ((i + 1) * 4)) = 4%nat ->
  SignFirmware.append_word mac (SignFirmware.ret (ws, hdr)) i
  = SignFirmware.ret
      (ws ++ [Struct.int_from_bytes_little (slice mac (i * 4) ((i + 1) * 4))],
       hdr ++ slice mac (i * 4) ((i + 1) * 4)).
Proof.
  intro L. unfold SignFirmware.append_word.
  rewrite bind_ret. unfold SignFirmware.struct_unpack, SignFirmware.struct_pack.
  rewrite unpack_u32_ok by exact L. rewrite bind_ret.
  cbn [Struct.pack_u32s]. rewrite pack_unpack_group by exact L.
  rewrite app_nil_r, bind_ret. reflexivity.
Qed.

(** The 32 bytes of a digest are its eight consecutive four-byte groups. *)
Lemma digest_groups (mac : bytes) :
  length mac = 32%nat ->
  concat (map (fun i => slice mac (i * 4) ((i + 1) * 4)) (seq 0 8)) = mac.
Proof.
  intro L.
  do 32 (destruct mac as [|? mac]; [discriminate L|]).
  destruct mac; [reflexivity|discriminate L].
Qed.

(** Lines 110-114 on a 32-byte digest: the header grows by the digest
    itself, and the words are the digest's little-endian words. *)
Lemma signature_loop (mac header : bytes) :
  length mac = 32%nat ->
  fold_left (SignFirmware.append_word mac) (seq 0 8) (SignFirmware.ret ([], header))
  = SignFirmware.ret (Image.digest_words mac, header ++ mac).
Proof.
  intro L. cbn [seq fold_left].
  rewrite !append_word_step by (apply slice_length_4; [exact L|lia]).
  unfold SignFirmware.ret, Image.digest_words. cbn [seq map app].
  do 3 f_equal. rewrite <- !app_assoc. f_equal.
  etransitivity; [|exact (digest_groups mac L)].
  cbn [seq map concat]. rewrite app_nil_r. reflexivity.
Qed.

(** ** Runs of [sign_firmware] *)

Lemma bind_emit_ret {A B : Type} (ev : SignFirmware.event) (a : A)
      (f : A -> SignFirmware.M B) :
  SignFirmware.bind
    (SignFirmware.bind (SignFirmware.emit ev) (fun _ => SignFirmware.ret a)) f
  = (ev :: fst (f a), snd (f a)).
Proof.
  unfold SignFirmware.bind, SignFirmware.emit, SignFirmware.ret.
  now destruct (f a).
Qed.

Section Runs.
Import SignFirmware Image.

Lemma padded_payload_length (fw : bytes) :
  len fw <= header_offset -> len (padded_payload fw) = header_offset.
Proof.
  intro L. unfold padded_payload, len in *.
  rewrite length_app, zeros_length. lia.
Qed.

Lemma header_words_range (version timestamp : Z) :
  0 <= version < 2 ^ 32 -> 0 <= timestamp < 2 ^ 32 ->
  Forall (fun v => 0 <= v < 2 ^ 32) (header_words version timestamp).
Proof.
  intros V T. unfold header_words, magic, header_offset, entry_point.
  repeat constructor; lia.
Qed.

Lemma header_fields_length (version timestamp : Z) :
  length (header_fields version timestamp) = 32%nat.
Proof. reflexivity. Qed.

Variables (e : env) (fw : bytes) (key_hex : string) (version : Z).
Hypothesis Hfile : firmware_file e = Some fw.

Lemma run_too_large :
  len fw > header_offset ->
  sign_firmware e key_hex version
  = ([], SysExit (FirmwareTooLarge (len fw) header_offset (len fw - header_offset))).
Proof.
  intro L. unfold sign_firmware, read_firmware. rewrite Hfile, bind_ret.
  destruct (Z.gtb_spec (len fw) header_offset) as [_|G]; [|lia].
  reflexivity.
Qed.

Hypothesis Hsize : len fw <= header_offset.
Hypothesis Hversion : 0 <= version < 2 ^ 32.
Hypothesis Hnow : 0 <= now e < 2 ^ 32.

(** Up to the key gate, a run of well-formed inputs only depends on the
    outcome of [decode_key]. *)
Lemma run_to_key_gate :
  sign_firmware e key_hex version
  = finish (
      key <- decode_key key_hex ;;
      let data_to_sign := padded_payload fw ++ header_fields version (now e) in
      mac <- hmac_digest key data_to_sign ;;
      signed <- fold_left (append_word mac) (seq 0 8)
                  (ret ([], header_fields version (now e))) ;;
      write_output e (padded_payload fw ++ snd signed)).
Proof.
  unfold sign_firmware, read_firmware. rewrite Hfile, bind_ret.
  destruct (Z.gtb_spec (len fw) header_offset) as [G|_]; [lia|].
  rewrite bind_ret. cbv zeta.
  change (fw ++ zeros (Z.to_nat (header_offset - len fw))) with (padded_payload fw).
  rewrite (padded_payload_length fw Hsize).
  rewrite !struct_pack_ok, !bind_ret
    by (unfold magic, header_offset, entry_point; repeat constructor; lia).
  replace (concat (map (Struct.le_bytes 4)
                     [magic; version; header_offset; entry_point; now e; 0])
           ++ concat (map (Struct.le_bytes 4) [0; 0]))
    with (header_fields version (now e)).
  2:{ unfold header_fields, header_words. rewrite <- concat_app, <- map_app. reflexivity. }
  reflexivity.
Qed.

Hypothesis Hwritable : output_writable e = true.

(** A run with a 32-byte key: one MAC over payload and header words,
    then one write of payload, header words and digest. *)
Lemma run_signs (key : bytes) :
  Hex.fromhex key_hex = Some key -> length key = 32%nat ->
  sign_firmware e key_hex version
  = (let data_to_sign := padded_payload fw ++ header_fields version (now e) in
     [HmacDigest key data_to_sign;
      FileWrite (data_to_sign ++ HMAC.hmac_sha256 key data_to_sign)],
     Returned).
Proof.
  intros K L. rewrite run_to_key_gate. unfold decode_key, len.
  rewrite K, L. cbn [Z.of_nat Z.eqb Pos.of_succ_nat Pos.succ Pos.eqb negb].
  rewrite bind_ret. cbv zeta. unfold hmac_digest.
  rewrite bind_emit_ret, signature_loop by apply hmac_length.
  rewrite bind_ret. unfold write_output. rewrite Hwritable.
  cbn [snd fst emit finish]. rewrite app_assoc. reflexivity.
Qed.

(** A key of another length ends the run at the key gate: nothing was
    hashed, nothing written. *)
Lemma run_key_length (key : bytes) :
  Hex.fromhex key_hex = Some key -> length key <> 32%nat ->
  sign_firmware e key_hex version
  = ([], SysExit (KeyNot256Bits (len key * 8) (Z.of_nat (String.length key_hex)))).
Proof.
  intros K L. rewrite run_to_key_gate. unfold decode_key. rewrite K.
  destruct (Z.eqb_spec (len key) 32) as [E|_]; [unfold len in E; lia|].
  reflexivity.
Qed.

Lemma run_key_malformed :
  Hex.fromhex key_hex = None ->
  sign_firmware e key_hex version = ([], SysExit InvalidHexKey).
Proof.
  intro K. rewrite run_to_key_gate. unfold decode_key. now rewrite K.
Qed.

End Runs.

(** ** Regions of a written image *)

Section Regions.
Import SignFirmware Image.

Variables (p h s : bytes).
Hypothesis Hp : len p = header_offset.

Lemma payload_region_app (t : bytes) : payload_region (p ++ t) = p.
Proof.
  unfold payload_region. rewrite <- Hp. unfold len. rewrite Nat2Z.id.
  rewrite firstn_app, firstn_all, Nat.sub_diag, firstn_O. apply app_nil_r.
Qed.

Lemma header_region_app (t : bytes) : header_region (p ++ t) = t.
Proof.
  unfold header_region. rewrite <- Hp. unfold len. rewrite Nat2Z.id.
  rewrite skipn_app, skipn_all, Nat.sub_diag, skipn_O. reflexivity.
Qed.

Hypothesis Hh : length h = 32%nat.

Lemma embedded_signature_app : embedded_signature ((p ++ h) ++ s) = s.
Proof.
  unfold embedded_signature. rewrite <- app_assoc, header_region_app.
  rewrite <- Hh, skipn_app, skipn_all, Nat.sub_diag, skipn_O. reflexivity.
Qed.

Lemma payload_region_image : payload_region ((p ++ h) ++ s) = p.
Proof. rewrite <- app_assoc. apply payload_region_app. Qed.

Lemma signed_fields_app : firstn 32 (header_region ((p ++ h) ++ s)) = h.
Proof.
  rewrite <- app_assoc, header_region_app.
  rewrite <- Hh, firstn_app, firstn_all, Nat.sub_diag, firstn_O. apply app_nil_r.
Qed.

Lemma image_length : length s = 32%nat -> len ((p ++ h) ++ s) = header_offset + 64.
Proof.
  intro Hs. unfold len in *. rewrite !length_app, Hh, Hs. lia.
Qed.

End Regions.

(** A word of the header is found at its offset from the header start. *)
Lemma u32_at_header (p t : bytes) (k : nat) :
  len p = SignFirmware.header_offset ->
  Image.u32_at (p ++ t) (Z.to_nat SignFirmware.header_offset + k) = Image.u32_at t k.
Proof.
  intro Hp. unfold Image.u32_at, slice. rewrite <- Hp. unfold len. rewrite Nat2Z.id.
  replace (length p + k + 4 - (length p + k))%nat with (k + 4 - k)%nat by lia.
  rewrite skipn_app, (skipn_all2 p) by lia.
  replace (length p + k - length p)%nat with k by lia. reflexivity.
Qed.


(** ** The worked scenario, evaluated *)

Section ScenarioFacts.
Import SignFirmware Image.

Lemma scenario_padded :
  padded_payload Scenario.payload = zeros (Z.to_nat header_offset).
Proof.
  unfold padded_payload, Scenario.payload, zeros, len.
  rewrite <- repeat_app, repeat_length.
  replace (8 + Z.to_nat (header_offset - Z.of_nat 8))%nat
    with (Z.to_nat header_offset) by (unfold header_offset; lia).
  reflexivity.
Qed.

(** The inner hash after the key block and the 65472 payload bytes:
    1024 full blocks, nothing pending. *)
Lemma scenario_inner_state :
  HMAC.inner Scenario.key (zeros (Z.to_nat header_offset))
  = SHA256.Hasher
      (SHA256.Regs 0xFCB1DC19 0x461E3F85 0x117A7FA2 0xDD5C70E6
                   0x62E6CE6A 0x9E3DC3E3 0xB753F376 0xFEAF866E)
      [] 65536.
Proof. vm_compute. reflexivity. Qed.

(** The MAC over payload and the eight header words. *)
Lemma scenario_mac_fields :
  map byte_val
    (HMAC.hmac_sha256 Scenario.key
       (padded_payload Scenario.payload
        ++ header_fields Scenario.version Scenario.timestamp))
  = [0x08; 0x67; 0x95; 0xd3; 0x16; 0x11; 0x8b; 0x3c;
     0xfe; 0x90; 0x9f; 0x4d; 0x4e; 0x83; 0x6f; 0x5e;
     0xc6; 0xe0; 0x9f; 0x1e; 0xca; 0x05; 0x14; 0x99;
     0x61; 0x58; 0x91; 0x90; 0x2f; 0x4e; 0x3c; 0x39].
Proof.
  rewrite scenario_padded, hmac_split, scenario_inner_state.
  vm_compute. reflexivity.
Qed.

(** The MAC over payload and the 64-byte header with a zeroed signature
    slot. *)
Lemma scenario_mac_zeroed :
  map byte_val
    (HMAC.hmac_sha256 Scenario.key
       (padded_payload Scenario.payload
        ++ unsigned_header Scenario.version Scenario.timestamp))
  = [0xa6; 0xad; 0x98; 0x19; 0x33; 0x20; 0x6d; 0xd5;
     0xec; 0x32; 0x8f; 0xd7; 0xb7; 0x31; 0xca; 0x77;
     0x05; 0x9e; 0x17; 0x76; 0xce; 0x54; 0xbb; 0xd0;
     0x10; 0x29; 0x4d; 0x9a; 0x66; 0xd4; 0xd2; 0x0b].
Proof.
  rewrite scenario_padded, hmac_split, scenario_inner_state.
  vm_compute. reflexivity.
Qed.

Lemma scenario_macs_differ :
  HMAC.hmac_sha256 Scenario.key
    (padded_payload Scenario.payload
     ++ header_fields Scenario.version Scenario.timestamp)
  <> HMAC.hmac_sha256 Scenario.key
       (padded_payload Scenario.payload
        ++ unsigned_header Scenario.version Scenario.timestamp).
Proof.
  intro E. apply (f_equal (map byte_val)) in E.
  rewrite scenario_mac_fields, scenario_mac_zeroed in E. discriminate E.
Qed.

Lemma scenario_key_decodes : Hex.fromhex Scenario.key_hex = Some Scenario.key.
Proof. vm_compute. reflexivity. Qed.

Lemma scenario_run :
  sign_firmware Scenario.env Scenario.key_hex Scenario.version
  = (let data_to_sign :=
       padded_payload Scenario.payload
       ++ header_fields Scenario.version Scenario.timestamp in
     [HmacDigest Scenario.key data_to_sign;
      FileWrite (data_to_sign ++ HMAC.hmac_sha256 Scenario.key data_to_sign)],
     Returned).
Proof.
  apply (run_signs Scenario.env Scenario.payload Scenario.key_hex Scenario.version).
  - reflexivity.
  - vm_compute. discriminate.
  - unfold Scenario.version. lia.
  - cbn. unfold Scenario.timestamp. lia.
  - reflexivity.
  - exact scenario_key_decodes.
  - reflexivity.
Qed.

End ScenarioFacts.

(** ** Header words read back from an image *)

Lemma slice_skip_group (g t : bytes) (k : nat) :
  length g = 4%nat ->
  slice (g ++ t) (4 * S k) (4 * S k + 4) = slice t (4 * k) (4 * k + 4).
Proof.
  intro L. unfold slice.
  replace (4 * S k + 4 - 4 * S k)%nat with (4 * k + 4 - 4 * k)%nat by lia.
  rewrite skipn_app, (skipn_all2 g) by lia.
  replace (4 * S k - length g)%nat with (4 * k)%nat by lia. reflexivity.
Qed.

Lemma slice_first_group (g t : bytes) :
  length g = 4%nat -> slice (g ++ t) (4 * 0) (4 * 0 + 4) = g.
Proof.
  intro L. unfold slice. cbn [Nat.mul Nat.add Nat.sub skipn].
  rewrite <- L, firstn_app, firstn_all, Nat.sub_diag, firstn_O. apply app_nil_r.
Qed.

(** The [k]-th word of a run of serialised words is found at offset
    [4 * k]. *)
Lemma u32_at_words (ws : list Z) (t : bytes) (k : nat) (w : Z) :
  Forall (fun v => 0 <= v < 2 ^ 32) ws ->
  nth_error ws k = Some w ->
  Image.u32_at (concat (map (Struct.le_bytes 4) ws) ++ t) (4 * k) = Some w.
Proof.
  intro F. revert k. induction F as [|v ws R F IH]; intros k N.
  - destruct k; discriminate N.
  - cbn [map concat]. rewrite <- app_assoc. unfold Image.u32_at in *.
    destruct k as [|k].
    + injection N as <-. rewrite slice_first_group by apply le_bytes_length.
      apply unpack_pack_word. exact R.
    + rewrite slice_skip_group by apply le_bytes_length. apply IH. exact N.
Qed.

(** The [i]-th signature word is the [i]-th little-endian word of the
    digest. *)
Lemma u32_at_signature (h mac : bytes) (i : nat) :
  length h = 32%nat -> length mac = 32%nat -> (i < 8)%nat ->
  Image.u32_at (h ++ mac) (32 + i * 4)
  = Some (nth i (Image.digest_words mac) 0).
Proof.
  intros Lh Lm I. unfold Image.u32_at, slice.
  replace (32 + i * 4 + 4 - (32 + i * 4))%nat with ((i + 1) * 4 - i * 4)%nat by lia.
  rewrite skipn_app, (skipn_all2 h) by lia.
  replace (32 + i * 4 - length h)%nat with (i * 4)%nat by lia.
  cbn [app]. fold (slice mac (i * 4) ((i + 1) * 4)).
  rewrite unpack_u32_ok by (apply slice_length_4; assumption).
  f_equal. unfold Image.digest_words.
  do 8 (destruct i as [|i]; [reflexivity|]). lia.
Qed.

(** The digest's words, serialised again, are the digest. *)
Lemma digest_words_bytes (mac : bytes) :
  length mac = 32%nat ->
  concat (map (Struct.le_bytes 4) (Image.digest_words mac)) = mac.
Proof.
  intro L. rewrite <- (digest_groups mac L) at 2.
  unfold Image.digest_words. rewrite map_map. f_equal.
  apply map_ext_in. intros i I. apply in_seq in I.
  rewrite <- (slice_length_4 mac i L) at 1 by lia.
  apply le_bytes_from_bytes.
Qed.

(** ** Claims about runs that sign

    The inputs of this section are those of a run that signs: the firmware
    file exists and holds at most [header_offset] bytes, version and time
    fit 32 bits (as [struct.pack] with [<I] requires), the key string
    decodes to 32 bytes, and the output file can be written. *)

Section SigningRuns.
Import SignFirmware Image.

Variables (e : env) (fw : bytes) (key_hex : string) (key : bytes) (version : Z).
Hypothesis Hfile : firmware_file e = Some fw.
Hypothesis Hsize : len fw <= header_offset.
Hypothesis Hversion : 0 <= version < 2 ^ 32.
Hypothesis Hnow : 0 <= now e < 2 ^ 32.
Hypothesis Hkey : Hex.fromhex key_hex = Some key.
Hypothesis Hkeylen : length key = 32%nat.
Hypothesis Hwritable : output_writable e = true.

(** C1 (amended). For every payload of at most [header_offset] = 0xFFC0
    bytes and every 32-byte key, the run computes one MAC, over the padded
    payload followed by the 32-byte serialisation of the eight header words
    that precede the signature; the signature field is not part of the
    message, which is [header_offset + 32] bytes long. The signature
    embedded in the written image is that HMAC-SHA256 value. *)
Theorem signature_is_mac_of_payload_and_fields :
  exists img data_to_sign,
    image_of (fst (sign_firmware e key_hex version)) = Some img
    /\ mac_input_of (fst (sign_firmware e key_hex version)) = Some (key, data_to_sign)
    /\ data_to_sign = padded_payload fw ++ header_fields version (now e)
    /\ len data_to_sign = header_offset + 32
    /\ embedded_signature img = HMAC.hmac_sha256 key data_to_sign.
Proof.
  rewrite (run_signs e fw key_hex version Hfile Hsize Hversion Hnow Hwritable key Hkey Hkeylen).
  cbv zeta. cbn [fst image_of mac_input_of].
  eexists. eexists. repeat split.
  - unfold len. rewrite length_app, header_fields_length.
    pose proof (padded_payload_length fw Hsize) as P. unfold len in P. lia.
  - apply embedded_signature_app.
    + apply padded_payload_length. exact Hsize.
    + apply header_fields_length.
Qed.

(** C2 (amended). Splitting a signed image into its [header_offset]-byte
    payload and its 64-byte header, and recomputing the MAC over the payload
    followed by the first 32 header bytes (the header without its signature
    field), reproduces the embedded signature. *)
Theorem recomputed_mac_without_signature_field :
  exists img,
    image_of (fst (sign_firmware e key_hex version)) = Some img
    /\ payload_region img = padded_payload fw
    /\ firstn 32 (header_region img) = header_fields version (now e)
    /\ signer_mac key img = embedded_signature img.
Proof.
  rewrite (run_signs e fw key_hex version Hfile Hsize Hversion Hnow Hwritable key Hkey Hkeylen).
  cbv zeta. cbn [fst image_of]. eexists. split; [reflexivity|].
  pose proof (padded_payload_length fw Hsize) as P.
  pose proof (header_fields_length version (now e)) as H.
  unfold signer_mac.
  rewrite payload_region_image, signed_fields_app, embedded_signature_app by assumption.
  repeat split.
Qed.

(** C3. For every payload of length at most [header_offset] and every
    32-byte key, the run writes an image of exactly [header_offset + 64]
    = 65536 bytes, whatever the payload length. *)
Theorem image_size_is_constant :
  exists img,
    image_of (fst (sign_firmware e key_hex version)) = Some img
    /\ len img = header_offset + 64
    /\ header_offset + 64 = 65536.
Proof.
  rewrite (run_signs e fw key_hex version Hfile Hsize Hversion Hnow Hwritable key Hkey Hkeylen).
  cbv zeta. cbn [fst image_of]. eexists. split; [reflexivity|]. split; [|reflexivity].
  apply image_length.
  - apply padded_payload_length. exact Hsize.
  - apply header_fields_length.
  - apply hmac_length.
Qed.

(** The layout of the image written by a signing run: padded payload,
    header words at their offsets, signature words, total size. *)
Lemma signed_image_layout :
  exists img,
    image_of (fst (sign_firmware e key_hex version)) = Some img
    /\ payload_region img = fw ++ zeros (Z.to_nat (header_offset - len fw))
    /\ len (payload_region img) = header_offset
    /\ u32_at img (Z.to_nat header_offset + 0) = Some 0xDEADBEEF
    /\ u32_at img (Z.to_nat header_offset + 4) = Some version
    /\ u32_at img (Z.to_nat header_offset + 8) = Some header_offset
    /\ u32_at img (Z.to_nat header_offset + 12) = Some entry_point
    /\ u32_at img (Z.to_nat header_offset + 16) = Some (now e)
    /\ u32_at img (Z.to_nat header_offset + 20) = Some 0
    /\ u32_at img (Z.to_nat header_offset + 24) = Some 0
    /\ u32_at img (Z.to_nat header_offset + 28) = Some 0
    /\ (forall i, (i < 8)%nat ->
        u32_at img (Z.to_nat header_offset + (32 + i * 4))
        = Some (nth i (digest_words (embedded_signature img)) 0))
    /\ len img = header_offset + 64.
Proof.
  rewrite (run_signs e fw key_hex version Hfile Hsize Hversion Hnow Hwritable key Hkey Hkeylen).
  cbv zeta. cbn [fst image_of]. eexists. split; [reflexivity|].
  pose proof (padded_payload_length fw Hsize) as P.
  pose proof (header_fields_length version (now e)) as H.
  pose proof (header_words_range version (now e) Hversion Hnow) as F.
  set (mac := HMAC.hmac_sha256 key (padded_payload fw ++ header_fields version (now e))).
  assert (Lm : length mac = 32%nat) by apply hmac_length.
  rewrite payload_region_image, embedded_signature_app by assumption.
  rewrite <- !app_assoc.
  assert (W : forall k w, nth_error (header_words version (now e)) k = Some w ->
              u32_at (padded_payload fw ++ header_fields version (now e) ++ mac)
                     (Z.to_nat header_offset + 4 * k) = Some w).
  { intros k w N. rewrite u32_at_header by exact P.
    unfold header_fields. apply u32_at_words; assumption. }
  split; [reflexivity|]. split; [exact P|].
  split; [exact (W 0%nat _ eq_refl)|]. split; [exact (W 1%nat _ eq_refl)|].
  split; [exact (W 2%nat _ eq_refl)|]. split; [exact (W 3%nat _ eq_refl)|].
  split; [exact (W 4%nat _ eq_refl)|]. split; [exact (W 5%nat _ eq_refl)|].
  split; [exact (W 6%nat _ eq_refl)|]. split; [exact (W 7%nat _ eq_refl)|].
  split.
  - intros i I. rewrite u32_at_header by exact P.
    apply u32_at_signature; assumption.
  - rewrite !app_assoc. apply image_length; assumption.
Qed.

(** C8. The digest is read as eight little-endian words, group by group,
    and the words are appended to the header in digest order; the 32
    signature bytes of the image are, byte for byte, the HMAC-SHA256
    digest, because serialising the word read from a four-byte group gives
    the group back. *)
Theorem signature_bytes_are_the_digest :
  exists img mac,
    image_of (fst (sign_firmware e key_hex version)) = Some img
    /\ mac = HMAC.hmac_sha256 key (padded_payload fw ++ header_fields version (now e))
    /\ mac_input_of (fst (sign_firmware e key_hex version))
       = Some (key, padded_payload fw ++ header_fields version (now e))
    /\ embedded_signature img = concat (map (Struct.le_bytes 4) (digest_words mac))
    /\ embedded_signature img = mac
    /\ (forall b0 b1 b2 b3,
        Struct.le_bytes 4 (Struct.int_from_bytes_little [b0; b1; b2; b3])
        = [b0; b1; b2; b3]).
Proof.
  rewrite (run_signs e fw key_hex version Hfile Hsize Hversion Hnow Hwritable key Hkey Hkeylen).
  cbv zeta. cbn [fst image_of mac_input_of].
  eexists. eexists. split; [reflexivity|]. split; [reflexivity|]. split; [reflexivity|].
  pose proof (padded_payload_length fw Hsize) as P.
  pose proof (header_fields_length version (now e)) as H.
  rewrite embedded_signature_app by assumption.
  rewrite digest_words_bytes by apply hmac_length.
  repeat split.
  intros b0 b1 b2 b3. exact (le_bytes_from_bytes [b0; b1; b2; b3]).
Qed.

End SigningRuns.

(** ** Runs that return *)

Lemma pack_u32_some (v : Z) (b : bytes) :
  Struct.pack_u32 v = Some b -> 0 <= v < 2 ^ 32.
Proof.
  unfold Struct.pack_u32.
  destruct (Z.leb_spec 0 v); destruct (Z.leb_spec v 0xFFFFFFFF);
    cbn [andb]; intro E; try discriminate E. lia.
Qed.

Lemma pack_u32s_some (vs : list Z) (b : bytes) :
  Struct.pack_u32s vs = Some b -> Forall (fun v => 0 <= v < 2 ^ 32) vs.
Proof.
  revert b. induction vs as [|v t IH]; intros b E; [constructor|].
  cbn [Struct.pack_u32s] in E.
  destruct (Struct.pack_u32 v) as [p|] eqn:P; [|discriminate E].
  destruct (Struct.pack_u32s t) as [q|] eqn:Q; [|discriminate E].
  constructor; [exact (pack_u32_some v p P)|exact (IH q eq_refl)].
Qed.

(** A run that returns had a firmware within the limit, a version and a
    time that fit 32 bits, a key of 32 bytes and a writable output. *)
Lemma returned_run_inputs (e : SignFirmware.env) (key_hex : string) (version : Z) :
  snd (SignFirmware.sign_firmware e key_hex version) = SignFirmware.Returned ->
  exists fw key,
    SignFirmware.firmware_file e = Some fw
    /\ len fw <= SignFirmware.header_offset
    /\ 0 <= version < 2 ^ 32
    /\ 0 <= SignFirmware.now e < 2 ^ 32
    /\ Hex.fromhex key_hex = Some key
    /\ length key = 32%nat
    /\ SignFirmware.output_writable e = true.
Proof.
  unfold SignFirmware.sign_firmware, SignFirmware.read_firmware.
  destruct (SignFirmware.firmware_file e) as [fw|]; [|discriminate].
  rewrite bind_ret.
  destruct (Z.gtb_spec (len fw) SignFirmware.header_offset) as [G|L]; [discriminate|].
  rewrite bind_ret. cbv zeta.
  rewrite (struct_pack_ok [0; 0]) by (repeat constructor; lia).
  unfold SignFirmware.struct_pack.
  match goal with
  | |- context [Struct.pack_u32s ?l] =>
      destruct (Struct.pack_u32s l) as [header|] eqn:P
  end; [|discriminate].
  apply pack_u32s_some in P.
  rewrite !bind_ret. unfold SignFirmware.decode_key.
  destruct (Hex.fromhex key_hex) as [key|]; [|discriminate].
  destruct (Z.eqb_spec (len key) 32) as [K|K]; [|discriminate].
  cbn [negb]. rewrite bind_ret. unfold SignFirmware.hmac_digest.
  rewrite bind_emit_ret, signature_loop by apply hmac_length.
  rewrite bind_ret. unfold SignFirmware.write_output.
  destruct (SignFirmware.output_writable e); [|discriminate].
  intros _. exists fw, key.
  pose proof (Forall_inv (Forall_inv_tail P)) as Hv.
  pose proof (Forall_inv (Forall_inv_tail (Forall_inv_tail (Forall_inv_tail
                (Forall_inv_tail P))))) as Hn.
  cbv beta in Hv, Hn. unfold len in K.
  split; [reflexivity|]. split; [exact L|]. split; [exact Hv|]. split; [exact Hn|].
  split; [reflexivity|]. split; [lia|reflexivity].
Qed.

(** C6. Every run that returns has written an image made of the input
    payload zero-padded to [header_offset] bytes, then the header:
    little-endian 32-bit words at offsets [header_offset + 0, 4, .., 28]
    holding magic 0xDEADBEEF, version, length = [header_offset], entry
    point, timestamp and three zero words, then the eight signature
    words. *)
Theorem image_layout (e : SignFirmware.env) (key_hex : string) (version : Z) :
  snd (SignFirmware.sign_firmware e key_hex version) = SignFirmware.Returned ->
  exists fw img,
    SignFirmware.firmware_file e = Some fw
    /\ SignFirmware.image_of (fst (SignFirmware.sign_firmware e key_hex version))
       = Some img
    /\ Image.payload_region img
       = fw ++ zeros (Z.to_nat (SignFirmware.header_offset - len fw))
    /\ len (Image.payload_region img) = SignFirmware.header_offset
    /\ Image.u32_at img (Z.to_nat SignFirmware.header_offset + 0) = Some 0xDEADBEEF
    /\ Image.u32_at img (Z.to_nat SignFirmware.header_offset + 4) = Some version
    /\ Image.u32_at img (Z.to_nat SignFirmware.header_offset + 8)
       = Some SignFirmware.header_offset
    /\ Image.u32_at img (Z.to_nat SignFirmware.header_offset + 12)
       = Some SignFirmware.entry_point
    /\ Image.u32_at img (Z.to_nat SignFirmware.header_offset + 16)
       = Some (SignFirmware.now e)
    /\ Image.u32_at img (Z.to_nat SignFirmware.header_offset + 20) = Some 0
    /\ Image.u32_at img (Z.to_nat SignFirmware.header_offset + 24) = Some 0
    /\ Image.u32_at img (Z.to_nat SignFirmware.header_offset + 28) = Some 0
    /\ (forall i, (i < 8)%nat ->
        Image.u32_at img (Z.to_nat SignFirmware.header_offset + (32 + i * 4))
        = Some (nth i (Image.digest_words (Image.embedded_signature img)) 0))
    /\ len img = SignFirmware.header_offset + 64.
Proof.
  intro R.
  destruct (returned_run_inputs e key_hex version R)
    as (fw & key & Hf & Hs & Hv & Hn & Hk & Hl & Hw).
  destruct (signed_image_layout e fw key_hex key version Hf Hs Hv Hn Hk Hl Hw)
    as (img & L).
  exists fw, img. split; [exact Hf|exact L].
Qed.

(** ** Claims about the gates *)

(** C4. A payload of exactly [header_offset] bytes is signed (given a
    valid key); a payload of [header_offset + 1] bytes ends the run with the
    too-large diagnostic reporting size, limit and an overflow of 1; in
    general a payload of [L > header_offset] bytes ends it with that
    diagnostic reporting [L], [header_offset] and [L - header_offset], and
    nothing is hashed or written. *)
Theorem payload_size_gate (e : SignFirmware.env) (fw : bytes) (key_hex : string)
    (version : Z) :
  SignFirmware.firmware_file e = Some fw ->
  (len fw > SignFirmware.header_offset ->
     SignFirmware.sign_firmware e key_hex version
     = ([], SignFirmware.SysExit
              (SignFirmware.FirmwareTooLarge (len fw) SignFirmware.header_offset
                 (len fw - SignFirmware.header_offset)))
     /\ SignFirmware.image_of (fst (SignFirmware.sign_firmware e key_hex version)) = None)
  /\ (len fw = SignFirmware.header_offset + 1 ->
      SignFirmware.sign_firmware e key_hex version
      = ([], SignFirmware.SysExit
               (SignFirmware.FirmwareTooLarge (SignFirmware.header_offset + 1)
                  SignFirmware.header_offset 1)))
  /\ (len fw = SignFirmware.header_offset ->
      forall key,
        0 <= version < 2 ^ 32 -> 0 <= SignFirmware.now e < 2 ^ 32 ->
        Hex.fromhex key_hex = Some key -> length key = 32%nat ->
        SignFirmware.output_writable e = true ->
        exists img,
          SignFirmware.sign_firmware e key_hex version
          = ([SignFirmware.HmacDigest key
                (fw ++ Image.header_fields version (SignFirmware.now e));
              SignFirmware.FileWrite img], SignFirmware.Returned)).
Proof.
  intro Hfile. split; [|split].
  - intro L. rewrite (run_too_large e fw key_hex version Hfile L). split; reflexivity.
  - intro L. rewrite (run_too_large e fw key_hex version Hfile) by lia.
    rewrite L. reflexivity.
  - intros L key Hv Hn Hk Hl Hw.
    rewrite (run_signs e fw key_hex version Hfile ltac:(lia) Hv Hn Hw key Hk Hl).
    cbv zeta. unfold Image.padded_payload. rewrite L, Z.sub_diag.
    cbn [Z.to_nat zeros repeat]. rewrite app_nil_r. eexists. reflexivity.
Qed.

Section KeyGate.
Import SignFirmware Image.

Variables (e : env) (fw : bytes) (key_hex : string) (version : Z).
Hypothesis Hfile : firmware_file e = Some fw.
Hypothesis Hsize : len fw <= header_offset.
Hypothesis Hversion : 0 <= version < 2 ^ 32.
Hypothesis Hnow : 0 <= now e < 2 ^ 32.

(** C5 (amended). Once the payload has been read, found to be at most
    [header_offset] bytes and padded, and the header words packed, a key
    whose decoded length is not 32 bytes ends the run with the key-length
    diagnostic, and a key string that does not decode with the hex-format
    diagnostic; in both cases no MAC has been computed and nothing is
    written. A key of 32 zero bytes is accepted and the run signs with it. *)
Theorem key_gate_after_payload_gate :
  (forall key, Hex.fromhex key_hex = Some key -> length key <> 32%nat ->
     sign_firmware e key_hex version
     = ([], SysExit (KeyNot256Bits (len key * 8) (Z.of_nat (String.length key_hex)))))
  /\ (Hex.fromhex key_hex = None ->
      sign_firmware e key_hex version = ([], SysExit InvalidHexKey))
  /\ (Hex.fromhex key_hex = Some (zeros 32) -> output_writable e = true ->
      exists img,
        sign_firmware e key_hex version
        = ([HmacDigest (zeros 32) (padded_payload fw ++ header_fields version (now e));
            FileWrite img], Returned)).
Proof.
  split; [|split].
  - intros key K L. exact (run_key_length e fw key_hex version Hfile Hsize Hversion Hnow key K L).
  - intro K. exact (run_key_malformed e fw key_hex version Hfile Hsize Hversion Hnow K).
  - intros K W.
    rewrite (run_signs e fw key_hex version Hfile Hsize Hversion Hnow W (zeros 32) K eq_refl).
    cbv zeta. eexists. reflexivity.
Qed.

End KeyGate.

(** ** Determinism *)

Lemma decode_key_by_bytes (k1 k2 : string) :
  Hex.fromhex k1 = Hex.fromhex k2 ->
  SignFirmware.decode_key k1 = SignFirmware.decode_key k2
  \/ exists o1 o2, SignFirmware.decode_key k1 = SignFirmware.stop o1
                   /\ SignFirmware.decode_key k2 = SignFirmware.stop o2.
Proof.
  intro E. unfold SignFirmware.decode_key. rewrite E.
  destruct (Hex.fromhex k2) as [key|]; [|left; reflexivity].
  destruct (negb (len key =? 32)); [right; eauto|left; reflexivity].
Qed.

(** C7. The image is a function of payload, version, timestamp and key
    bytes (the entry point is a constant): two runs that agree on these
    write byte-identical images, and feed the same bytes to the MAC, also
    when the key is spelt differently in hexadecimal. *)
Theorem signing_is_deterministic (e1 e2 : SignFirmware.env) (k1 k2 : string)
    (version : Z) :
  SignFirmware.firmware_file e1 = SignFirmware.firmware_file e2 ->
  SignFirmware.now e1 = SignFirmware.now e2 ->
  SignFirmware.output_writable e1 = SignFirmware.output_writable e2 ->
  Hex.fromhex k1 = Hex.fromhex k2 ->
  SignFirmware.image_of (fst (SignFirmware.sign_firmware e1 k1 version))
  = SignFirmware.image_of (fst (SignFirmware.sign_firmware e2 k2 version))
  /\ SignFirmware.mac_input_of (fst (SignFirmware.sign_firmware e1 k1 version))
     = SignFirmware.mac_input_of (fst (SignFirmware.sign_firmware e2 k2 version)).
Proof.
  intros Ef En Ew Ek. destruct e1 as [f1 n1 w1], e2 as [f2 n2 w2].
  cbn [SignFirmware.firmware_file SignFirmware.now SignFirmware.output_writable] in *.
  subst f2 n2 w2.
  unfold SignFirmware.sign_firmware, SignFirmware.read_firmware.
  cbn [SignFirmware.firmware_file SignFirmware.now].
  destruct f1 as [fw|]; [|split; reflexivity].
  rewrite !bind_ret.
  destruct (len fw >? SignFirmware.header_offset); [split; reflexivity|].
  rewrite !bind_ret. cbv zeta.
  rewrite (struct_pack_ok [0; 0]) by (repeat constructor; lia).
  unfold SignFirmware.struct_pack.
  match goal with
  | |- context [Struct.pack_u32s ?l] => destruct (Struct.pack_u32s l) as [header|]
  end; [|split; reflexivity].
  rewrite !bind_ret.
  destruct (decode_key_by_bytes k1 k2 Ek) as [D|(o1 & o2 & D1 & D2)].
  - rewrite D. split; reflexivity.
  - rewrite D1, D2. split; reflexivity.
Qed.

(** ** The scenario as a witness, and where the stated claims fail *)

Ltac scenario_input :=
  first
    [ reflexivity
    | exact scenario_key_decodes
    | (vm_compute; reflexivity)
    | (vm_compute; discriminate)
    | (unfold Scenario.version; lia)
    | (unfold Scenario.env, Scenario.timestamp; cbn [SignFirmware.now]; lia) ].

Lemma signature_is_mac_of_payload_and_fields_witness :
  exists img data_to_sign,
    SignFirmware.image_of
      (fst (SignFirmware.sign_firmware Scenario.env Scenario.key_hex Scenario.version))
    = Some img
    /\ SignFirmware.mac_input_of
         (fst (SignFirmware.sign_firmware Scenario.env Scenario.key_hex Scenario.version))
       = Some (Scenario.key, data_to_sign)
    /\ data_to_sign
       = Image.padded_payload Scenario.payload
         ++ Image.header_fields Scenario.version Scenario.timestamp
    /\ len data_to_sign = SignFirmware.header_offset + 32
    /\ Image.embedded_signature img = HMAC.hmac_sha256 Scenario.key data_to_sign.
Proof.
  apply (signature_is_mac_of_payload_and_fields
           Scenario.env Scenario.payload Scenario.key_hex Scenario.key Scenario.version);
    scenario_input.
Defined.

(** C1 as stated fails on the scenario: the message given to the MAC is
    not [header_offset + 64] bytes long, and the embedded signature is not
    the MAC of the padded payload followed by the 64-byte header with a
    zeroed signature slot. *)
Lemma zeroed_signature_slot_is_not_signed :
  exists img data_to_sign,
    SignFirmware.image_of
      (fst (SignFirmware.sign_firmware Scenario.env Scenario.key_hex Scenario.version))
    = Some img
    /\ SignFirmware.mac_input_of
         (fst (SignFirmware.sign_firmware Scenario.env Scenario.key_hex Scenario.version))
       = Some (Scenario.key, data_to_sign)
    /\ len data_to_sign <> SignFirmware.header_offset + 64
    /\ Image.embedded_signature img
       <> HMAC.hmac_sha256 Scenario.key
            (Image.padded_payload Scenario.payload
             ++ Image.unsigned_header Scenario.version Scenario.timestamp).
Proof.
  rewrite scenario_run. cbv zeta. cbn [fst SignFirmware.image_of SignFirmware.mac_input_of].
  assert (P : len (Image.padded_payload Scenario.payload) = SignFirmware.header_offset)
    by (apply padded_payload_length; vm_compute; discriminate).
  pose proof (header_fields_length Scenario.version Scenario.timestamp) as H.
  eexists. eexists. split; [reflexivity|]. split; [reflexivity|]. split.
  - unfold len in *. rewrite length_app, H. lia.
  - rewrite embedded_signature_app by assumption. exact scenario_macs_differ.
Qed.

Lemma recomputed_mac_without_signature_field_witness :
  exists img,
    SignFirmware.image_of
      (fst (SignFirmware.sign_firmware Scenario.env Scenario.key_hex Scenario.version))
    = Some img
    /\ Image.payload_region img = Image.padded_payload Scenario.payload
    /\ firstn 32 (Image.header_region img)
       = Image.header_fields Scenario.version Scenario.timestamp
    /\ Image.signer_mac Scenario.key img = Image.embedded_signature img.
Proof.
  apply (recomputed_mac_without_signature_field
           Scenario.env Scenario.payload Scenario.key_hex Scenario.key Scenario.version);
    scenario_input.
Defined.

(** C2 as stated fails on the scenario: the MAC recomputed over payload and
    header-with-zeroed-signature differs from the embedded signature, so
    that check rejects the image the tool wrote. *)
Lemma zeroed_signature_check_rejects :
  exists img,
    SignFirmware.image_of
      (fst (SignFirmware.sign_firmware Scenario.env Scenario.key_hex Scenario.version))
    = Some img
    /\ Image.verifier_mac Scenario.key img <> Image.embedded_signature img.
Proof.
  rewrite scenario_run. cbv zeta. cbn [fst SignFirmware.image_of].
  eexists. split; [reflexivity|].
  assert (P : len (Image.padded_payload Scenario.payload) = SignFirmware.header_offset)
    by (apply padded_payload_length; vm_compute; discriminate).
  pose proof (header_fields_length Scenario.version Scenario.timestamp) as H.
  unfold Image.verifier_mac, Image.zero_signature.
  rewrite payload_region_image, signed_fields_app, embedded_signature_app by assumption.
  intro E. apply scenario_macs_differ. symmetry. exact E.
Qed.

Lemma image_size_is_constant_witness :
  exists img,
    SignFirmware.image_of
      (fst (SignFirmware.sign_firmware Scenario.env Scenario.key_hex Scenario.version))
    = Some img
    /\ len img = SignFirmware.header_offset + 64
    /\ SignFirmware.header_offset + 64 = 65536.
Proof.
  apply (image_size_is_constant
           Scenario.env Scenario.payload Scenario.key_hex Scenario.key Scenario.version);
    scenario_input.
Defined.

Lemma oversize_length : len (zeros (Z.to_nat (SignFirmware.header_offset + 1)))
                        = SignFirmware.header_offset + 1.
Proof. unfold len. rewrite zeros_length. unfold SignFirmware.header_offset. lia. Qed.

Lemma payload_size_gate_witness :
  SignFirmware.sign_firmware Scenario.oversize_env Scenario.key_hex Scenario.version
  = ([], SignFirmware.SysExit
           (SignFirmware.FirmwareTooLarge (SignFirmware.header_offset + 1)
              SignFirmware.header_offset 1)).
Proof.
  apply (proj1 (proj2 (payload_size_gate Scenario.oversize_env
                         (zeros (Z.to_nat (SignFirmware.header_offset + 1)))
                         Scenario.key_hex Scenario.version eq_refl))).
  exact oversize_length.
Defined.

Lemma key_gate_after_payload_gate_witness :
  SignFirmware.sign_firmware Scenario.env Scenario.key_hex_31 Scenario.version
  = ([], SignFirmware.SysExit (SignFirmware.KeyNot256Bits 248 62))
  /\ SignFirmware.sign_firmware Scenario.env Scenario.key_hex_33 Scenario.version
     = ([], SignFirmware.SysExit (SignFirmware.KeyNot256Bits 264 66)).
Proof.
  split.
  - apply (proj1 (key_gate_after_payload_gate
                    Scenario.env Scenario.payload Scenario.key_hex_31 Scenario.version
                    eq_refl ltac:(scenario_input) ltac:(scenario_input)
                    ltac:(scenario_input)) (repeat x01 31)).
    + vm_compute. reflexivity.
    + vm_compute. discriminate.
  - apply (proj1 (key_gate_after_payload_gate
                    Scenario.env Scenario.payload Scenario.key_hex_33 Scenario.version
                    eq_refl ltac:(scenario_input) ltac:(scenario_input)
                    ltac:(scenario_input)) (repeat x01 33)).
    + vm_compute. reflexivity.
    + vm_compute. discriminate.
Defined.

(** C5 as stated fails: with a firmware one byte over the limit and a key
    of 31 bytes, the run ends at the size gate, not with the key-length
    diagnostic. *)
Lemma size_gate_precedes_key_gate :
  Hex.fromhex Scenario.key_hex_31 = Some (repeat x01 31)
  /\ SignFirmware.sign_firmware Scenario.oversize_env Scenario.key_hex_31 Scenario.version
     = ([], SignFirmware.SysExit
              (SignFirmware.FirmwareTooLarge (SignFirmware.header_offset + 1)
                 SignFirmware.header_offset 1))
  /\ forall bits chars,
       snd (SignFirmware.sign_firmware Scenario.oversize_env Scenario.key_hex_31
              Scenario.version)
       <> SignFirmware.SysExit (SignFirmware.KeyNot256Bits bits chars).
Proof.
  assert (R : SignFirmware.sign_firmware Scenario.oversize_env Scenario.key_hex_31
                Scenario.version
              = ([], SignFirmware.SysExit
                       (SignFirmware.FirmwareTooLarge (SignFirmware.header_offset + 1)
                          SignFirmware.header_offset 1))).
  { rewrite (run_too_large Scenario.oversize_env
               (zeros (Z.to_nat (SignFirmware.header_offset + 1)))
               Scenario.key_hex_31 Scenario.version eq_refl)
      by (rewrite oversize_length; lia).
    rewrite oversize_length. reflexivity. }
  split; [vm_compute; reflexivity|]. split; [exact R|].
  intros bits chars. rewrite R. discriminate.
Qed.

Lemma image_layout_witness :
  exists fw img,
    SignFirmware.firmware_file Scenario.env = Some fw
    /\ SignFirmware.image_of
         (fst (SignFirmware.sign_firmware Scenario.env Scenario.key_hex Scenario.version))
       = Some img
    /\ Image.u32_at img (Z.to_nat SignFirmware.header_offset + 0) = Some 0xDEADBEEF
    /\ Image.u32_at img (Z.to_nat SignFirmware.header_offset + 8) = Some 0xFFC0
    /\ len img = 65536.
Proof.
  assert (R : snd (SignFirmware.sign_firmware Scenario.env Scenario.key_hex
                     Scenario.version) = SignFirmware.Returned)
    by (rewrite scenario_run; reflexivity).
  destruct (image_layout Scenario.env Scenario.key_hex Scenario.version R)
    as (fw & img & F & I & _ & _ & M & _ & L & _ & _ & _ & _ & _ & _ & S).
  exists fw, img. split; [exact F|]. split; [exact I|]. split; [exact M|].
  split; [exact L|exact S].
Defined.

Lemma signing_is_deterministic_witness :
  SignFirmware.image_of
    (fst (SignFirmware.sign_firmware Scenario.env Scenario.key_hex Scenario.version))
  = SignFirmware.image_of
      (fst (SignFirmware.sign_firmware Scenario.env Scenario.key_hex_spaced
              Scenario.version)).
Proof.
  exact (proj1 (signing_is_deterministic Scenario.env Scenario.env
                  Scenario.key_hex Scenario.key_hex_spaced Scenario.version
                  eq_refl eq_refl eq_refl eq_refl)).
Defined.

Lemma signature_bytes_are_the_digest_witness :
  exists img mac,
    SignFirmware.image_of
      (fst (SignFirmware.sign_firmware Scenario.env Scenario.key_hex Scenario.version))
    = Some img
    /\ mac = HMAC.hmac_sha256 Scenario.key
               (Image.padded_payload Scenario.payload
                ++ Image.header_fields Scenario.version Scenario.timestamp)
    /\ Image.embedded_signature img = mac.
Proof.
  destruct (signature_bytes_are_the_digest
              Scenario.env Scenario.payload Scenario.key_hex Scenario.key Scenario.version
              eq_refl ltac:(scenario_input) ltac:(scenario_input) ltac:(scenario_input)
              scenario_key_decodes eq_refl eq_refl)
    as (img & mac & I & M & _ & _ & S & _).
  exists img, mac. split; [exact I|]. split; [exact M|exact S].
Defined.

(** ** Text of numbers *)

Lemma string_length_append (s t : string) :
  String.length (String.append s t) = (String.length s + String.length t)%nat.
Proof. induction s as [|c s IH]; cbn; [reflexivity|now rewrite IH]. Qed.

Lemma value_from_append (base acc : Z) (s t : string) :
  Words.value_from base acc (String.append s t)
  = Words.value_from base (Words.value_from base acc s) t.
Proof. revert acc. induction s as [|c s IH]; intro acc; cbn; [reflexivity|apply IH]. Qed.

Lemma digit_value_char (d : Z) :
  0 <= d < 16 -> Words.digit_value (Hex.digit_char d) = d.
Proof.
  intro R.
  assert (C : d = 0 \/ d = 1 \/ d = 2 \/ d = 3 \/ d = 4 \/ d = 5 \/ d = 6 \/ d = 7
              \/ d = 8 \/ d = 9 \/ d = 10 \/ d = 11 \/ d = 12 \/ d = 13 \/ d = 14
              \/ d = 15) by lia.
  repeat (destruct C as [->|C]; [reflexivity|]). subst d. reflexivity.
Qed.

(** Reading back the digits written for [n] gives [n]. *)
Lemma value_of_digits (base : Z) (fuel : nat) :
  2 <= base <= 16 ->
  forall n, 0 <= n < 2 ^ Z.of_nat fuel ->
  Words.value_from base 0 (Hex.digits base fuel n) = n.
Proof.
  intro B. induction fuel as [|fuel IH]; intros n R.
  - cbn in *. lia.
  - cbn [Hex.digits]. destruct (Z.ltb_spec n base) as [L|L].
    + cbn [Words.value_from]. rewrite digit_value_char by lia. lia.
    + rewrite value_from_append. cbn [Words.value_from].
      rewrite Nat2Z.inj_succ, Z.pow_succ_r in R by lia.
      pose proof (Z.mod_pos_bound n base ltac:(lia)) as M.
      assert (Q : 0 <= n / base < 2 ^ Z.of_nat fuel)
        by (split; [apply Z.div_pos; lia | apply Z.div_lt_upper_bound; nia]).
      rewrite (IH _ Q), digit_value_char by lia.
      pose proof (Z.div_mod n base ltac:(lia)). lia.
Qed.

Lemma digit_fuel_enough (n : Z) : 0 <= n -> n < 2 ^ Z.of_nat (Hex.digit_fuel n).
Proof.
  intro R. unfold Hex.digit_fuel.
  rewrite Nat2Z.inj_succ, Z2Nat.id by apply Z.log2_nonneg.
  destruct (Z.eq_dec n 0) as [->|N]; [reflexivity|].
  apply Z.log2_spec. lia.
Qed.

(** No more digits are written than the value needs. *)
Lemma digits_length (base : Z) (fuel : nat) :
  2 <= base ->
  forall (k : nat) n, 0 <= n < base ^ Z.of_nat k -> (1 <= k)%nat ->
  (String.length (Hex.digits base fuel n) <= k)%nat.
Proof.
  intro B. induction fuel as [|fuel IH]; intros k n R K.
  - cbn. lia.
  - cbn [Hex.digits]. destruct (Z.ltb_spec n base) as [L|L].
    + cbn. lia.
    + rewrite string_length_append. cbn [String.length].
      destruct k as [|k]; [lia|].
      rewrite Nat2Z.inj_succ, Z.pow_succ_r in R by lia.
      destruct k as [|k]; [cbn in R; lia|].
      assert (String.length (Hex.digits base fuel (n / base)) <= S k)%nat; [|lia].
      apply IH; [|lia]. split; [apply Z.div_pos; lia|].
      apply Z.div_lt_upper_bound; lia.
Qed.

Lemma fill_length (n : nat) (c : ascii) : String.length (Hex.fill n c) = n.
Proof. induction n as [|n IH]; cbn; [reflexivity|now rewrite IH]. Qed.

Lemma value_from_zero_fill (n : nat) (s : string) :
  Words.value_from 16 0 (String.append (Hex.fill n "0"%char) s)
  = Words.value_from 16 0 s.
Proof. induction n as [|n IH]; cbn; [reflexivity|exact IH]. Qed.

(** [f"{v:08x}"] of a 32-bit value: eight hexadecimal digits whose value is
    [v]. *)
Lemma format_08x_word (v : Z) :
  0 <= v < 2 ^ 32 ->
  String.length (Hex.format_08x v) = 8%nat
  /\ Words.hex_value (Hex.format_08x v) = v.
Proof.
  intro R. unfold Hex.format_08x, Words.hex_value, Hex.format_x. split.
  - rewrite string_length_append, fill_length.
    pose proof (digits_length 16 (Hex.digit_fuel v) ltac:(lia) 8 v) as D.
    change (16 ^ Z.of_nat 8) with (2 ^ 32) in D. specialize (D R ltac:(lia)). lia.
  - rewrite value_from_zero_fill. apply value_of_digits; [lia|].
    split; [lia|]. apply digit_fuel_enough. lia.
Qed.

(** [str(n)]: decimal digits whose value is [n]. *)
Lemma str_value (n : Z) : 0 <= n -> Words.dec_value (Hex.str n) = n.
Proof.
  intro R. unfold Words.dec_value, Hex.str. apply value_of_digits; [lia|].
  split; [lia|]. apply digit_fuel_enough. lia.
Qed.

(** ** Words of a padded buffer *)

Lemma lor_shiftl_add (a b n : Z) :
  0 <= n -> 0 <= a < 2 ^ n -> Z.lor a (Z.shiftl b n) = a + b * 2 ^ n.
Proof.
  intros N A. rewrite Z.shiftl_mul_pow2 by exact N.
  assert (D : Z.land a (b * 2 ^ n) = 0).
  { apply Z.bits_inj'. intros m M. rewrite Z.land_spec, Z.bits_0.
    destruct (Z.lt_ge_cases m n) as [L|G].
    - rewrite Z.mul_pow2_bits_low by exact L. apply andb_false_r.
    - destruct (Z.eq_dec a 0) as [->|P]; [now rewrite Z.bits_0|].
      rewrite (Z.bits_above_log2 a m); [reflexivity|lia|].
      apply Z.lt_le_trans with n; [|exact G].
      apply Z.log2_lt_pow2; lia. }
  rewrite <- Z.lxor_lor by exact D. symmetry. apply Z.add_nocarry_lxor. exact D.
Qed.

(** Line 34-35 of [bin2hex.py] on four bytes is their little-endian
    value. *)
Lemma word_val_le (b0 b1 b2 b3 : byte) :
  Z.lor (Z.lor (Z.lor (byte_val b0) (Z.shiftl (byte_val b1) 8))
               (Z.shiftl (byte_val b2) 16))
        (Z.shiftl (byte_val b3) 24)
  = byte_val b0 + 256 * byte_val b1 + 65536 * byte_val b2 + 16777216 * byte_val b3.
Proof.
  pose proof (byte_val_range b0). pose proof (byte_val_range b1).
  pose proof (byte_val_range b2). pose proof (byte_val_range b3).
  rewrite (lor_shiftl_add (byte_val b0)) by lia.
  rewrite (lor_shiftl_add (byte_val b0 + _)) by lia.
  rewrite (lor_shiftl_add (byte_val b0 + _ + _)) by lia.
  lia.
Qed.

Lemma pad4_length (data : bytes) :
  length (Words.pad4 data) = (4 * Words.word_count (Words.pad4 data))%nat
  /\ (length data <= length (Words.pad4 data) < length data + 4)%nat.
Proof.
  unfold Words.word_count, Words.pad4. rewrite length_app, zeros_length.
  pose proof (Nat.div_mod_eq (length data) 4) as D.
  pose proof (Nat.mod_upper_bound (length data) 4 ltac:(lia)) as U.
  set (r := (length data mod 4)%nat) in *.
  set (q := (length data / 4)%nat) in *.
  assert (C : (r = 0 \/ r = 1 \/ r = 2 \/ r = 3)%nat) by lia.
  destruct C as [C|[C|[C|C]]]; rewrite C in *; cbn [Nat.sub Nat.modulo Nat.divmod fst snd].
  - replace (length data + 0)%nat with (q * 4)%nat by lia.
    rewrite Nat.div_mul by lia. lia.
  - replace (length data + 3)%nat with ((q + 1) * 4)%nat by lia.
    rewrite Nat.div_mul by lia. lia.
  - replace (length data + 2)%nat with ((q + 1) * 4)%nat by lia.
    rewrite Nat.div_mul by lia. lia.
  - replace (length data + 1)%nat with ((q + 1) * 4)%nat by lia.
    rewrite Nat.div_mul by lia. lia.
Qed.

(** Lines 16-17 of [bin2hex.py] pad to the next multiple of four. *)
Lemma bin2hex_padding (data : bytes) :
  (if negb (len data mod 4 =? 0)
   then data ++ zeros (Z.to_nat (4 - len data mod 4))
   else data) = Words.pad4 data.
Proof.
  unfold Words.pad4, len.
  change 4 with (Z.of_nat 4) at 1 3. rewrite <- Nat2Z.inj_mod.
  pose proof (Nat.mod_upper_bound (length data) 4 ltac:(lia)) as U.
  set (r := (length data mod 4)%nat) in *.
  destruct (Z.eqb_spec (Z.of_nat r) 0) as [E|E]; cbn [negb].
  - replace r with 0%nat by lia. cbn. now rewrite app_nil_r.
  - f_equal. f_equal.
    assert (C : (r = 1 \/ r = 2 \/ r = 3)%nat) by lia.
    destruct C as [C|[C|C]]; rewrite C; reflexivity.
Qed.

Lemma range_by_four (n : nat) :
  range 0 (4 * Z.of_nat n) 4 = map (fun k => 4 * Z.of_nat k) (seq 0 n).
Proof.
  unfold range.
  replace ((4 * Z.of_nat n - 0 + 4 - 1) / 4) with (Z.of_nat n)
    by (Z.div_mod_to_equations; lia).
  rewrite Nat2Z.id. apply map_ext. intro k. lia.
Qed.

Lemma range_by_one (a b : Z) :
  length (range a b 1) = Z.to_nat (b - a).
Proof.
  unfold range. rewrite length_map, length_seq. f_equal.
  rewrite Z.div_1_r. lia.
Qed.

(** A full group of four bytes of a buffer. *)
Lemma slice_group (buf : bytes) (k : nat) :
  (4 * k + 4 <= length buf)%nat ->
  slice buf (4 * k) (4 * k + 4)
  = [nth (4 * k) buf x00; nth (4 * k + 1) buf x00;
     nth (4 * k + 2) buf x00; nth (4 * k + 3) buf x00].
Proof.
  intro L. unfold slice.
  replace (4 * k + 4 - 4 * k)%nat with 4%nat by lia.
  rewrite <- (Nat.add_0_r (4 * k)) at 2. rewrite <- !nth_skipn.
  pose proof (length_skipn (4 * k) buf) as S.
  destruct (skipn (4 * k) buf) as [|a [|b [|c [|d t]]]]; cbn [length] in S; try lia.
  reflexivity.
Qed.

Lemma group_offsets (k : nat) :
  Z.to_nat (4 * Z.of_nat k) = (4 * k)%nat
  /\ Z.to_nat (4 * Z.of_nat k + 4) = (4 * k + 4)%nat
  /\ 4 * Z.of_nat k / 4 = Z.of_nat k.
Proof. repeat split; try lia. Z.div_mod_to_equations. lia. Qed.

Lemma word_line_le (buf : bytes) (k : nat) :
  (4 * k + 4 <= length buf)%nat ->
  Bin2Hex.word_line buf (4 * Z.of_nat k)
  = Some (String.append (Hex.format_08x (Words.le_word buf k)) nl).
Proof.
  intro L. unfold Bin2Hex.word_line.
  destruct (group_offsets k) as (-> & -> & _).
  rewrite slice_group by exact L. cbn [Bin2Hex.item nth_error option_map].
  rewrite word_val_le. reflexivity.
Qed.

(** Lines 5-7 of [make_imem.py] give the group of the padded buffer. *)
Lemma imem_group (b : bytes) (k : nat) :
  (k < Words.word_count (Words.pad4 b))%nat ->
  (let w := slice b (4 * k) (4 * k + 4) in
   if len w <? 4 then w ++ zeros (Z.to_nat (4 - len w)) else w)
  = slice (Words.pad4 b) (4 * k) (4 * k + 4).
Proof.
  intro K. destruct (pad4_length b) as [P [Q1 Q2]].
  cbv zeta. unfold slice, len.
  replace (4 * k + 4 - 4 * k)%nat with 4%nat by lia.
  rewrite length_firstn, length_skipn.
  unfold Words.pad4 in *. rewrite length_app, zeros_length in *.
  set (p := ((4 - length b mod 4) mod 4)%nat) in *.
  rewrite skipn_app, firstn_app, length_skipn.
  destruct (Nat.le_gt_cases (4 * k + 4) (length b)) as [F|F].
  - destruct (Z.ltb_spec (Z.of_nat (Nat.min 4 (length b - 4 * k))) 4) as [Lt|_]; [lia|].
    replace (4 - (length b - 4 * k))%nat with 0%nat by lia.
    rewrite firstn_O, app_nil_r. reflexivity.
  - destruct (Z.ltb_spec (Z.of_nat (Nat.min 4 (length b - 4 * k))) 4) as [_|Ge]; [|lia].
    rewrite (firstn_all2 (n := 4) (skipn (4 * k) b)) by (rewrite length_skipn; lia).
    f_equal.
    replace (4 * k - length b)%nat with 0%nat by lia. rewrite skipn_O.
    rewrite firstn_all2 by (rewrite zeros_length; lia).
    f_equal. lia.
Qed.

Lemma imem_line_le (b : bytes) (k : nat) :
  (k < Words.word_count (Words.pad4 b))%nat ->
  MakeImem.imem_line b (4 * Z.of_nat k)
  = String.append "    memory["
      (String.append (Hex.str (Z.of_nat k))
         (String.append "] = 32'h"
            (String.append (Hex.format_08x (Words.le_word (Words.pad4 b) k))
               (String.append ";" nl)))).
Proof.
  intro K. unfold MakeImem.imem_line.
  destruct (group_offsets k) as (-> & -> & ->).
  pose proof (imem_group b k K) as G. cbv zeta in G. rewrite G.
  destruct (pad4_length b) as [P _].
  rewrite slice_group by lia.
  cbn [Struct.int_from_bytes_little].
  replace (byte_val _ + 256 * (byte_val _ + 256 * (byte_val _
             + 256 * (byte_val _ + 256 * 0))))
    with (Words.le_word (Words.pad4 b) k) by (unfold Words.le_word; lia).
  reflexivity.
Qed.

(** ** The loops of the conversion tools *)

Lemma data_lines_filter (buf : bytes) (num : Z) (ks : list nat) :
  Forall (fun k => (4 * k + 4 <= length buf)%nat) ks ->
  Bin2Hex.data_lines buf num (map (fun k => 4 * Z.of_nat k) ks)
  = Some (map (Words.hex_line buf) (filter (fun k => Z.of_nat k <? num) ks)).
Proof.
  induction 1 as [|k ks L _ IH]; [reflexivity|].
  cbn [map Bin2Hex.data_lines filter].
  destruct (group_offsets k) as (_ & _ & ->).
  destruct (Z.of_nat k <? num); [|exact IH].
  rewrite word_line_le, IH by exact L. reflexivity.
Qed.

Lemma filter_seq_below (n m : nat) :
  filter (fun k => Z.of_nat k <? Z.of_nat m) (seq 0 n) = seq 0 (Nat.min n m).
Proof.
  induction n as [|n IH]; [reflexivity|].
  rewrite seq_S, filter_app, IH. cbn [filter Nat.add].
  destruct (Z.ltb_spec (Z.of_nat n) (Z.of_nat m)) as [L|G].
  - replace (Nat.min n m) with n by lia.
    replace (Nat.min (S n) m) with (S n) by lia. now rewrite seq_S.
  - replace (Nat.min (S n) m) with (Nat.min n m) by lia. apply app_nil_r.
Qed.

Lemma groups_in_buffer (buf : bytes) (n : nat) :
  length buf = (4 * n)%nat ->
  Forall (fun k => (4 * k + 4 <= length buf)%nat) (seq 0 n).
Proof.
  intro L. apply Forall_forall. intros k K. apply in_seq in K. lia.
Qed.

(** What [bin2hex] writes, for a word count that is not negative. *)
Lemma bin2hex_lines (data : bytes) (num : nat) :
  Bin2Hex.bin2hex data (Some (Z.of_nat num))
  = Some (map (Words.hex_line (Words.pad4 data))
              (seq 0 (Nat.min (Words.word_count (Words.pad4 data)) num))
          ++ repeat Words.zero_line (num - Words.word_count (Words.pad4 data))).
Proof.
  unfold Bin2Hex.bin2hex. cbv zeta. rewrite bin2hex_padding.
  destruct (pad4_length data) as [P _].
  set (buf := Words.pad4 data) in *. set (n := Words.word_count buf) in *.
  assert (E : len buf = 4 * Z.of_nat n) by (unfold len; lia).
  rewrite E, range_by_four.
  rewrite data_lines_filter by (apply groups_in_buffer; exact P).
  rewrite filter_seq_below. f_equal. f_equal.
  rewrite map_const, range_by_one. fold Words.zero_line. f_equal.
  replace (4 * Z.of_nat n / 4) with (Z.of_nat n) by (Z.div_mod_to_equations; lia).
  lia.
Qed.

Lemma bin2hex_all_lines (data : bytes) :
  Bin2Hex.bin2hex data None
  = Some (map (Words.hex_line (Words.pad4 data))
              (seq 0 (Words.word_count (Words.pad4 data)))).
Proof.
  pose proof (bin2hex_lines data (Words.word_count (Words.pad4 data))) as B.
  rewrite Nat.min_id, Nat.sub_diag in B. cbn [repeat] in B.
  rewrite app_nil_r in B. rewrite <- B.
  unfold Bin2Hex.bin2hex. cbv zeta. rewrite bin2hex_padding.
  destruct (pad4_length data) as [P _].
  replace (len (Words.pad4 data) / 4)
    with (Z.of_nat (Words.word_count (Words.pad4 data)))
    by (unfold len; Z.div_mod_to_equations; lia).
  reflexivity.
Qed.

Lemma make_imem_lines (data : bytes) :
  MakeImem.make_imem data
  = map (Words.imem_text (Words.pad4 data)) (seq 0 (Words.word_count (Words.pad4 data))).
Proof.
  unfold MakeImem.make_imem, range.
  destruct (pad4_length data) as [P [Q1 Q2]].
  replace ((len data - 0 + 4 - 1) / 4)
    with (Z.of_nat (Words.word_count (Words.pad4 data)))
    by (unfold len; Z.div_mod_to_equations; lia).
  rewrite Nat2Z.id, map_map. apply map_ext_in. intros k K. apply in_seq in K.
  replace (0 + 4 * Z.of_nat k) with (4 * Z.of_nat k) by lia.
  apply imem_line_le. lia.
Qed.

Lemma le_word_range (buf : bytes) (k : nat) : 0 <= Words.le_word buf k < 2 ^ 32.
Proof.
  unfold Words.le_word.
  pose proof (byte_val_range (nth (4 * k) buf x00)).
  pose proof (byte_val_range (nth (4 * k + 1) buf x00)).
  pose proof (byte_val_range (nth (4 * k + 2) buf x00)).
  pose proof (byte_val_range (nth (4 * k + 3) buf x00)).
  lia.
Qed.

Lemma firstn_seq_min (m a n : nat) : firstn m (seq a n) = seq a (Nat.min m n).
Proof.
  revert a n. induction m as [|m IH]; intros a [|n]; cbn; try reflexivity.
  now rewrite IH.
Qed.

(** ** Claims about the conversion tools *)

(** C9. For every input buffer, [bin2hex] without a word count and
    [make_imem] work on the buffer zero-padded to a multiple of four bytes
    and emit one line per 32-bit word, in order; the value on line [i] is
    the little-endian value of bytes [4i .. 4i+3] of the padded buffer,
    written by [bin2hex] as eight hexadecimal digits and by [make_imem] as
    the assignment [memory[i] = 32'h........;]. *)
Theorem tools_print_little_endian_words (data : bytes) :
  let buf := Words.pad4 data in
  let n := Words.word_count buf in
  (length buf = 4 * n)%nat
  /\ (length data <= length buf < length data + 4)%nat
  /\ buf = data ++ zeros (length buf - length data)
  /\ Bin2Hex.bin2hex data None = Some (map (Words.hex_line buf) (seq 0 n))
  /\ MakeImem.make_imem data = map (Words.imem_text buf) (seq 0 n)
  /\ Forall (fun i =>
               String.length (Hex.format_08x (Words.le_word buf i)) = 8%nat
               /\ Words.hex_value (Hex.format_08x (Words.le_word buf i))
                  = Words.le_word buf i
               /\ Words.dec_value (Hex.str (Z.of_nat i)) = Z.of_nat i)
            (seq 0 n).
Proof.
  cbv zeta. destruct (pad4_length data) as [P Q].
  split; [exact P|]. split; [exact Q|]. split; [|split; [|split]].
  - unfold Words.pad4 at 1. f_equal. f_equal.
    unfold Words.pad4. rewrite length_app, zeros_length. lia.
  - apply bin2hex_all_lines.
  - apply make_imem_lines.
  - apply Forall_forall. intros i _.
    destruct (format_08x_word _ (le_word_range (Words.pad4 data) i)) as [L V].
    split; [exact L|]. split; [exact V|]. apply str_value. lia.
Qed.

(** C10 (amended). With an explicit word count [num_words >= 0], [bin2hex]
    writes exactly [num_words] lines. The first [min num_words n] of them
    are the word lines of the padded input, [n] being its number of words:
    line [i] is the eight hexadecimal digits of the little-endian word of
    bytes [4i .. 4i+3], digits that read back to that word, followed by a
    newline; these are the first lines of what [bin2hex] writes without a
    count, and later words are dropped. When [num_words] exceeds [n], lines
    ["00000000"] follow, [num_words - n] of them. *)
Theorem bin2hex_explicit_word_count (data : bytes) (num_words : Z) :
  0 <= num_words ->
  let buf := Words.pad4 data in
  let n := Words.word_count buf in
  let m := Z.to_nat num_words in
  exists word_lines out,
    Bin2Hex.bin2hex data None = Some word_lines
    /\ length word_lines = n
    /\ Bin2Hex.bin2hex data (Some num_words) = Some out
    /\ len out = num_words
    /\ out = firstn m word_lines ++ repeat Words.zero_line (m - n)
    /\ out = map (fun i => String.append (Hex.format_08x (Words.le_word buf i)) nl)
                 (seq 0 (Nat.min m n))
             ++ repeat (String.append "00000000" nl) (m - n)
    /\ Forall (fun i =>
                 String.length (Hex.format_08x (Words.le_word buf i)) = 8%nat
                 /\ Words.hex_value (Hex.format_08x (Words.le_word buf i))
                    = Words.le_word buf i)
              (seq 0 (Nat.min m n)).
Proof.
  intro N. cbv zeta. rewrite bin2hex_all_lines.
  pose proof (bin2hex_lines data (Z.to_nat num_words)) as B.
  rewrite (Z2Nat.id num_words N) in B. rewrite B. clear B.
  set (m := Z.to_nat num_words). set (buf := Words.pad4 data).
  set (n := Words.word_count buf).
  eexists. eexists. split; [reflexivity|].
  split; [now rewrite length_map, length_seq|].
  split; [reflexivity|]. split; [|split; [|split]].
  - unfold len. rewrite length_app, length_map, length_seq, repeat_length. lia.
  - rewrite firstn_map, firstn_seq_min. now rewrite Nat.min_comm.
  - rewrite Nat.min_comm. reflexivity.
  - apply Forall_forall. intros i _.
    exact (format_08x_word _ (le_word_range buf i)).
Qed.

Lemma bin2hex_explicit_word_count_witness :
  let data := [x01; x02; x03; x04; x05] in
  let buf := Words.pad4 data in
  let n := Words.word_count buf in
  let m := Z.to_nat 4 in
  exists word_lines out,
    Bin2Hex.bin2hex data None = Some word_lines
    /\ length word_lines = n
    /\ Bin2Hex.bin2hex data (Some 4) = Some out
    /\ len out = 4
    /\ out = firstn m word_lines ++ repeat Words.zero_line (m - n)
    /\ out = map (fun i => String.append (Hex.format_08x (Words.le_word buf i)) nl)
                 (seq 0 (Nat.min m n))
             ++ repeat (String.append "00000000" nl) (m - n)
    /\ Forall (fun i =>
                 String.length (Hex.format_08x (Words.le_word buf i)) = 8%nat
                 /\ Words.hex_value (Hex.format_08x (Words.le_word buf i))
                    = Words.le_word buf i)
              (seq 0 (Nat.min m n)).
Proof.
  apply (bin2hex_explicit_word_count [x01; x02; x03; x04; x05] 4). lia.
Defined.

(** The count is not checked: with [num_words = -1] the loop guard
    [i // 4 < num_words] never holds and [range(actual_words, -1)] is
    empty, so nothing is written, which is not [-1] lines. *)
Lemma bin2hex_negative_count_has_no_lines :
  exists out,
    Bin2Hex.bin2hex [x01; x02; x03; x04; x05] (Some (-1)) = Some out
    /\ out = []
    /\ len out <> -1.
Proof.
  exists []. split; [vm_compute; reflexivity|]. split; [reflexivity|].
  unfold len. cbn. lia.
Qed.

(** Five bytes, as the tools print them. *)
Example bin2hex_five_bytes :
  Bin2Hex.bin2hex [x01; x02; x03; x04; x05] None
  = Some [String.append "04030201" nl; String.append "00000005" nl]
  /\ Bin2Hex.bin2hex [x01; x02; x03; x04; x05] (Some 1)
     = Some [String.append "04030201" nl]
  /\ Bin2Hex.bin2hex [x01; x02; x03; x04; x05] (Some 3)
     = Some [String.append "04030201" nl; String.append "00000005" nl;
             String.append "00000000" nl]
  /\ MakeImem.make_imem [x01; x02; x03; x04; x05]
     = [String.append "    memory[0] = 32'h04030201;" nl;
        String.append "    memory[1] = 32'h00000005;" nl].
Proof. repeat split; vm_compute; reflexivity. Qed.

(* ================================================================== *)
(** * Part III: further properties of the tools                        *)
(* ================================================================== *)

(** ** Every run of [sign_firmware], gate by gate *)

Lemma fits_u32_range (v : Z) : Gates.fits_u32 v = true <-> 0 <= v < 2 ^ 32.
Proof.
  unfold Gates.fits_u32. rewrite andb_true_iff, !Z.leb_le. lia.
Qed.

(** A header field outside 32 bits makes [struct.pack] raise. *)
Lemma run_struct_error (e : SignFirmware.env) (fw : bytes) (key_hex : string)
    (version : Z) :
  SignFirmware.firmware_file e = Some fw ->
  len fw <= SignFirmware.header_offset ->
  Gates.fits_u32 version && Gates.fits_u32 (SignFirmware.now e) = false ->
  SignFirmware.sign_firmware e key_hex version = ([], SignFirmware.StructError).
Proof.
  intros Hf Hs R. unfold SignFirmware.sign_firmware, SignFirmware.read_firmware.
  rewrite Hf, bind_ret.
  destruct (Z.gtb_spec (len fw) SignFirmware.header_offset) as [G|_]; [lia|].
  rewrite bind_ret. cbv zeta.
  change (fw ++ zeros (Z.to_nat (SignFirmware.header_offset - len fw)))
    with (Image.padded_payload fw).
  rewrite (padded_payload_length fw Hs).
  unfold SignFirmware.struct_pack at 1. cbn [Struct.pack_u32s].
  rewrite (pack_u32_ok SignFirmware.magic) by (unfold SignFirmware.magic; lia).
  change (Struct.pack_u32 version)
    with (if Gates.fits_u32 version then Some (Struct.le_bytes 4 version) else None).
  change (Struct.pack_u32 (SignFirmware.now e))
    with (if Gates.fits_u32 (SignFirmware.now e)
          then Some (Struct.le_bytes 4 (SignFirmware.now e)) else None).
  rewrite (pack_u32_ok SignFirmware.header_offset),
          (pack_u32_ok SignFirmware.entry_point), (pack_u32_ok 0)
    by (unfold SignFirmware.header_offset, SignFirmware.entry_point; lia).
  destruct (Gates.fits_u32 version); [|reflexivity].
  destruct (Gates.fits_u32 (SignFirmware.now e)); [discriminate R|reflexivity].
Qed.

(** The output cannot be written: the MAC was computed, no write is
    recorded. *)
Lemma run_write_fails (e : SignFirmware.env) (fw : bytes) (key_hex : string)
    (version : Z) (key : bytes) :
  SignFirmware.firmware_file e = Some fw ->
  len fw <= SignFirmware.header_offset ->
  0 <= version < 2 ^ 32 -> 0 <= SignFirmware.now e < 2 ^ 32 ->
  Hex.fromhex key_hex = Some key -> length key = 32%nat ->
  SignFirmware.output_writable e = false ->
  SignFirmware.sign_firmware e key_hex version
  = ([SignFirmware.HmacDigest key
        (Image.padded_payload fw
         ++ Image.header_fields version (SignFirmware.now e))],
     SignFirmware.SysExit SignFirmware.WriteFailed).
Proof.
  intros Hf Hs Hv Hn K L W.
  rewrite (run_to_key_gate e fw key_hex version Hf Hs Hv Hn).
  unfold SignFirmware.decode_key, len.
  rewrite K, L. cbn [Z.of_nat Z.eqb Pos.of_succ_nat Pos.succ Pos.eqb negb].
  rewrite bind_ret. cbv zeta. unfold SignFirmware.hmac_digest.
  rewrite bind_emit_ret, signature_loop by apply hmac_length.
  rewrite bind_ret. unfold SignFirmware.write_output. rewrite W.
  reflexivity.
Qed.

Lemma run_table_eq (e : SignFirmware.env) (key_hex : string) (version : Z) :
  SignFirmware.sign_firmware e key_hex version = Gates.run_table e key_hex version.
Proof.
  unfold Gates.run_table.
  destruct (SignFirmware.firmware_file e) as [fw|] eqn:Hf.
  2:{ unfold SignFirmware.sign_firmware, SignFirmware.read_firmware.
      rewrite Hf. reflexivity. }
  destruct (Z.gtb_spec (len fw) SignFirmware.header_offset) as [G|Hs].
  { apply run_too_large; [exact Hf|lia]. }
  destruct (Gates.fits_u32 version && Gates.fits_u32 (SignFirmware.now e)) eqn:R;
    cbn [negb].
  2:{ exact (run_struct_error e fw key_hex version Hf Hs R). }
  apply andb_true_iff in R. destruct R as [Hv Hn].
  apply fits_u32_range in Hv. apply fits_u32_range in Hn.
  destruct (Hex.fromhex key_hex) as [key|] eqn:K.
  2:{ exact (run_key_malformed e fw key_hex version Hf Hs Hv Hn K). }
  destruct (Z.eqb_spec (len key) 32) as [L|L]; cbn [negb].
  2:{ apply (run_key_length e fw key_hex version Hf Hs Hv Hn key K).
      unfold len in L. lia. }
  assert (L' : length key = 32%nat) by (unfold len in L; lia).
  cbv zeta. destruct (SignFirmware.output_writable e) eqn:W.
  - exact (run_signs e fw key_hex version Hf Hs Hv Hn W key K L').
  - exact (run_write_fails e fw key_hex version key Hf Hs Hv Hn K L' W).
Qed.

(** Every integer below [10^4300] in absolute value can be printed. *)
Lemma str_allowed_below (v : Z) :
  Z.abs v < 10 ^ Z.of_nat Gates.max_str_digits -> Gates.str_allowed v = true.
Proof.
  intro B. unfold Gates.str_allowed. apply Nat.leb_le.
  unfold Hex.str. apply digits_length.
  - lia.
  - split; [apply Z.abs_nonneg|exact B].
  - unfold Gates.max_str_digits. apply Nat.lt_0_succ.
Qed.

(** X2. With the firmware present and within the limit and the signing
    time within 32 bits, a version outside [0, 2^32) that line 68 can still
    print (at most 4300 digits) ends the run with an uncaught
    [struct.error] at line 75, whatever the key string; nothing is hashed
    or written. *)
Theorem field_out_of_32_bits_raises (e : SignFirmware.env) (fw : bytes)
    (key_hex : string) (version : Z) :
  SignFirmware.firmware_file e = Some fw ->
  len fw <= SignFirmware.header_offset ->
  0 <= SignFirmware.now e < 2 ^ 32 ->
  Gates.str_allowed version = true ->
  version < 0 \/ 2 ^ 32 <= version ->
  SignFirmware.sign_firmware e key_hex version = ([], SignFirmware.StructError)
  /\ Struct.pack_u32 version = None
  /\ SignFirmware.mac_input_of
       (fst (SignFirmware.sign_firmware e key_hex version)) = None
  /\ SignFirmware.image_of
       (fst (SignFirmware.sign_firmware e key_hex version)) = None.
Proof.
  intros Hf Hs Hn _ R.
  assert (V : Gates.fits_u32 version = false).
  { destruct (Gates.fits_u32 version) eqn:V; [|reflexivity].
    apply fits_u32_range in V. lia. }
  assert (E : SignFirmware.sign_firmware e key_hex version
              = ([], SignFirmware.StructError)).
  { apply (run_struct_error e fw key_hex version Hf Hs). rewrite V. reflexivity. }
  rewrite E. split; [reflexivity|]. split; [|split; reflexivity].
  change (Struct.pack_u32 version)
    with (if Gates.fits_u32 version then Some (Struct.le_bytes 4 version) else None).
  rewrite V. reflexivity.
Qed.

Lemma field_out_of_32_bits_raises_witness :
  SignFirmware.sign_firmware Scenario.env "not hex" (-1)
  = ([], SignFirmware.StructError)
  /\ Struct.pack_u32 (-1) = None
  /\ SignFirmware.mac_input_of
       (fst (SignFirmware.sign_firmware Scenario.env "not hex" (-1))) = None
  /\ SignFirmware.image_of
       (fst (SignFirmware.sign_firmware Scenario.env "not hex" (-1))) = None.
Proof.
  exact (field_out_of_32_bits_raises Scenario.env Scenario.payload "not hex" (-1)
           eq_refl ltac:(vm_compute; discriminate)
           ltac:(cbn; unfold Scenario.timestamp; lia)
           eq_refl ltac:(left; lia)).
Defined.

Lemma scenario_returns :
  snd (SignFirmware.sign_firmware Scenario.env Scenario.key_hex Scenario.version)
  = SignFirmware.Returned.
Proof. rewrite scenario_run. reflexivity. Qed.

(** X3. A run returns only if the firmware file was read and holds at most
    [header_offset] bytes, version and time fit 32 bits, the key string
    decodes to 32 bytes and the output was written; such a run has computed
    exactly one MAC, with the decoded key over the padded payload followed
    by the 32 header bytes, and then written exactly one image, that
    message followed by its MAC. *)
Theorem returned_run_passed_every_gate (e : SignFirmware.env) (key_hex : string)
    (version : Z) :
  snd (SignFirmware.sign_firmware e key_hex version) = SignFirmware.Returned ->
  exists fw key,
    SignFirmware.firmware_file e = Some fw
    /\ len fw <= SignFirmware.header_offset
    /\ 0 <= version < 2 ^ 32
    /\ 0 <= SignFirmware.now e < 2 ^ 32
    /\ Hex.fromhex key_hex = Some key
    /\ length key = 32%nat
    /\ SignFirmware.output_writable e = true
    /\ let data :=
         Image.padded_payload fw
         ++ Image.header_fields version (SignFirmware.now e) in
       fst (SignFirmware.sign_firmware e key_hex version)
       = [SignFirmware.HmacDigest key data;
          SignFirmware.FileWrite (data ++ HMAC.hmac_sha256 key data)].
Proof.
  intro R.
  destruct (returned_run_inputs e key_hex version R)
    as (fw & key & Hf & Hs & Hv & Hn & K & L & W).
  exists fw, key.
  split; [exact Hf|]. split; [exact Hs|]. split; [exact Hv|].
  split; [exact Hn|]. split; [exact K|]. split; [exact L|]. split; [exact W|].
  rewrite (run_signs e fw key_hex version Hf Hs Hv Hn W key K L).
  reflexivity.
Qed.

Lemma returned_run_passed_every_gate_witness :
  exists fw key,
    SignFirmware.firmware_file Scenario.env = Some fw
    /\ len fw <= SignFirmware.header_offset
    /\ 0 <= Scenario.version < 2 ^ 32
    /\ 0 <= SignFirmware.now Scenario.env < 2 ^ 32
    /\ Hex.fromhex Scenario.key_hex = Some key
    /\ length key = 32%nat
    /\ SignFirmware.output_writable Scenario.env = true
    /\ let data :=
         Image.padded_payload fw
         ++ Image.header_fields Scenario.version
              (SignFirmware.now Scenario.env) in
       fst (SignFirmware.sign_firmware Scenario.env Scenario.key_hex
              Scenario.version)
       = [SignFirmware.HmacDigest key data;
          SignFirmware.FileWrite (data ++ HMAC.hmac_sha256 key data)].
Proof.
  exact (returned_run_passed_every_gate Scenario.env Scenario.key_hex
           Scenario.version scenario_returns).
Defined.

(** The runs that reach the MAC. *)
Lemma mac_input_inv (e : SignFirmware.env) (key_hex : string) (version : Z)
    (key data : bytes) :
  SignFirmware.mac_input_of (fst (SignFirmware.sign_firmware e key_hex version))
  = Some (key, data) ->
  exists fw,
    SignFirmware.firmware_file e = Some fw
    /\ len fw <= SignFirmware.header_offset
    /\ 0 <= version < 2 ^ 32
    /\ 0 <= SignFirmware.now e < 2 ^ 32
    /\ Hex.fromhex key_hex = Some key
    /\ length key = 32%nat
    /\ data = Image.padded_payload fw
              ++ Image.header_fields version (SignFirmware.now e).
Proof.
  rewrite run_table_eq. unfold Gates.run_table.
  destruct (SignFirmware.firmware_file e) as [fw|]; [|discriminate].
  destruct (Z.gtb_spec (len fw) SignFirmware.header_offset) as [G|Hs]; [discriminate|].
  destruct (Gates.fits_u32 version && Gates.fits_u32 (SignFirmware.now e)) eqn:R;
    cbn [negb]; [|discriminate].
  apply andb_true_iff in R. destruct R as [Hv Hn].
  apply fits_u32_range in Hv. apply fits_u32_range in Hn.
  destruct (Hex.fromhex key_hex) as [k|]; [|discriminate].
  destruct (Z.eqb_spec (len k) 32) as [L|L]; cbn [negb]; [|discriminate].
  cbv zeta. intro H.
  assert (E : Some (k, Image.padded_payload fw
                       ++ Image.header_fields version (SignFirmware.now e))
              = Some (key, data))
    by (destruct (SignFirmware.output_writable e); exact H).
  injection E as <- <-. exists fw. unfold len in L.
  repeat split; try assumption; try lia.
Qed.

(** The runs that write. *)
Lemma image_inv (e : SignFirmware.env) (key_hex : string) (version : Z)
    (img : bytes) :
  SignFirmware.image_of (fst (SignFirmware.sign_firmware e key_hex version))
  = Some img ->
  snd (SignFirmware.sign_firmware e key_hex version) = SignFirmware.Returned
  /\ exists key data,
       fst (SignFirmware.sign_firmware e key_hex version)
       = [SignFirmware.HmacDigest key data; SignFirmware.FileWrite img]
       /\ length key = 32%nat
       /\ len data = SignFirmware.header_offset + 32
       /\ img = data ++ HMAC.hmac_sha256 key data.
Proof.
  rewrite run_table_eq. unfold Gates.run_table.
  destruct (SignFirmware.firmware_file e) as [fw|]; [|discriminate].
  destruct (Z.gtb_spec (len fw) SignFirmware.header_offset) as [G|Hs]; [discriminate|].
  destruct (negb (Gates.fits_u32 version && Gates.fits_u32 (SignFirmware.now e)));
    [discriminate|].
  destruct (Hex.fromhex key_hex) as [k|]; [|discriminate].
  destruct (Z.eqb_spec (len k) 32) as [L|L]; cbn [negb]; [|discriminate].
  cbv zeta. destruct (SignFirmware.output_writable e); [|discriminate].
  cbn [fst snd SignFirmware.image_of]. intro H. injection H as <-.
  split; [reflexivity|]. eexists. eexists. split; [reflexivity|].
  split; [unfold len in L; lia|]. split; [|reflexivity].
  unfold len. rewrite length_app, header_fields_length.
  pose proof (padded_payload_length fw Hs) as P. unfold len in P. lia.
Qed.

(** X5. Whatever the inputs, a MAC is computed only with a key of exactly
    32 bytes, the decoded key string, and only over the padded payload
    followed by the 32 header bytes: a message of [header_offset + 32]
    bytes. *)
Theorem mac_only_with_decoded_256_bit_key (e : SignFirmware.env)
    (key_hex : string) (version : Z) (key data : bytes) :
  SignFirmware.mac_input_of (fst (SignFirmware.sign_firmware e key_hex version))
  = Some (key, data) ->
  Hex.fromhex key_hex = Some key
  /\ length key = 32%nat
  /\ len data = SignFirmware.header_offset + 32
  /\ exists fw,
       SignFirmware.firmware_file e = Some fw
       /\ data = Image.padded_payload fw
                 ++ Image.header_fields version (SignFirmware.now e).
Proof.
  intro H.
  destruct (mac_input_inv e key_hex version key data H)
    as (fw & Hf & Hs & _ & _ & K & L & D).
  split; [exact K|]. split; [exact L|]. split.
  - rewrite D. unfold len. rewrite length_app, header_fields_length.
    pose proof (padded_payload_length fw Hs) as P. unfold len in P. lia.
  - exists fw. split; [exact Hf|exact D].
Qed.

Lemma scenario_mac_input :
  SignFirmware.mac_input_of
    (fst (SignFirmware.sign_firmware Scenario.env Scenario.key_hex Scenario.version))
  = Some (Scenario.key, Samples.scenario_data).
Proof. rewrite scenario_run. reflexivity. Qed.

Lemma scenario_image_written :
  SignFirmware.image_of
    (fst (SignFirmware.sign_firmware Scenario.env Scenario.key_hex Scenario.version))
  = Some Samples.scenario_image.
Proof. rewrite scenario_run. reflexivity. Qed.

Lemma mac_only_with_decoded_256_bit_key_witness :
  Hex.fromhex Scenario.key_hex = Some Scenario.key
  /\ length Scenario.key = 32%nat
  /\ len Samples.scenario_data = SignFirmware.header_offset + 32
  /\ exists fw,
       SignFirmware.firmware_file Scenario.env = Some fw
       /\ Samples.scenario_data
          = Image.padded_payload fw
            ++ Image.header_fields Scenario.version
                 (SignFirmware.now Scenario.env).
Proof.
  exact (mac_only_with_decoded_256_bit_key Scenario.env Scenario.key_hex
           Scenario.version Scenario.key Samples.scenario_data scenario_mac_input).
Defined.

(** X6. When every other gate passes but opening or writing the output
    raises [IOError], the run ends with the write diagnostic, and by then
    the MAC has been computed, with the decoded key over the padded payload
    followed by the 32 header bytes. (What the failed write leaves in the
    output file is not stated.) *)
Theorem write_failure_comes_after_the_mac (e : SignFirmware.env) (fw : bytes)
    (key_hex : string) (version : Z) (key : bytes) :
  SignFirmware.firmware_file e = Some fw ->
  len fw <= SignFirmware.header_offset ->
  0 <= version < 2 ^ 32 -> 0 <= SignFirmware.now e < 2 ^ 32 ->
  Hex.fromhex key_hex = Some key -> length key = 32%nat ->
  SignFirmware.output_writable e = false ->
  snd (SignFirmware.sign_firmware e key_hex version)
  = SignFirmware.SysExit SignFirmware.WriteFailed
  /\ SignFirmware.mac_input_of
       (fst (SignFirmware.sign_firmware e key_hex version))
     = Some (key, Image.padded_payload fw
                  ++ Image.header_fields version (SignFirmware.now e)).
Proof.
  intros Hf Hs Hv Hn K L W.
  rewrite (run_write_fails e fw key_hex version key Hf Hs Hv Hn K L W).
  split; reflexivity.
Qed.

Lemma write_failure_comes_after_the_mac_witness :
  snd (SignFirmware.sign_firmware Samples.read_only_env Scenario.key_hex
         Scenario.version)
  = SignFirmware.SysExit SignFirmware.WriteFailed
  /\ SignFirmware.mac_input_of
       (fst (SignFirmware.sign_firmware Samples.read_only_env Scenario.key_hex
               Scenario.version))
     = Some (Scenario.key,
             Image.padded_payload Scenario.payload
             ++ Image.header_fields Scenario.version
                  (SignFirmware.now Samples.read_only_env)).
Proof.
  exact (write_failure_comes_after_the_mac Samples.read_only_env Scenario.payload
           Scenario.key_hex Scenario.version Scenario.key
           eq_refl ltac:(vm_compute; discriminate)
           ltac:(unfold Scenario.version; lia)
           ltac:(cbn; unfold Scenario.timestamp; lia)
           scenario_key_decodes eq_refl eq_refl).
Defined.

(** ** Payloads, padding and signing again *)

Lemma padded_payload_zeros (fw : bytes) (k : nat) :
  len fw + Z.of_nat k <= SignFirmware.header_offset ->
  Image.padded_payload (fw ++ zeros k) = Image.padded_payload fw.
Proof.
  intro L. unfold Image.padded_payload, zeros, len in *.
  rewrite <- app_assoc, <- repeat_app, length_app, repeat_length.
  do 2 f_equal. lia.
Qed.

(** X7. The image does not record where the firmware ends: a firmware and
    the same firmware followed by zero bytes (both within the limit) give
    the same run, hence the same MAC input and the same image. *)
Theorem trailing_zero_bytes_are_padding (e : SignFirmware.env) (fw : bytes)
    (k : nat) (key_hex : string) (version : Z) :
  SignFirmware.firmware_file e = Some fw ->
  len fw + Z.of_nat k <= SignFirmware.header_offset ->
  SignFirmware.sign_firmware
    (SignFirmware.Env (Some (fw ++ zeros k)) (SignFirmware.now e)
       (SignFirmware.output_writable e)) key_hex version
  = SignFirmware.sign_firmware e key_hex version.
Proof.
  intros Hf L. rewrite !run_table_eq. unfold Gates.run_table.
  cbn [SignFirmware.firmware_file SignFirmware.now SignFirmware.output_writable].
  rewrite Hf, (padded_payload_zeros fw k L).
  assert (E : len (fw ++ zeros k) = len fw + Z.of_nat k)
    by (unfold len; rewrite length_app, zeros_length; lia).
  destruct (Z.gtb_spec (len (fw ++ zeros k)) SignFirmware.header_offset) as [G|_];
    [lia|].
  destruct (Z.gtb_spec (len fw) SignFirmware.header_offset) as [G|_]; [lia|].
  reflexivity.
Qed.

Lemma trailing_zero_bytes_are_padding_witness :
  SignFirmware.sign_firmware
    (SignFirmware.Env (Some ([x01; x02; x03] ++ zeros 5))
       (SignFirmware.now Samples.short_env)
       (SignFirmware.output_writable Samples.short_env))
    Scenario.key_hex Scenario.version
  = SignFirmware.sign_firmware Samples.short_env Scenario.key_hex Scenario.version.
Proof.
  exact (trailing_zero_bytes_are_padding Samples.short_env [x01; x02; x03] 5
           Scenario.key_hex Scenario.version eq_refl
           ltac:(vm_compute; discriminate)).
Defined.

(** X8. A written image cannot be signed again: taken as the firmware of
    another run, with any key and version, it is 64 bytes over the limit
    and the run ends with the too-large diagnostic. *)
Theorem signed_image_is_too_large_to_sign (e e' : SignFirmware.env)
    (key_hex key_hex' : string) (version version' : Z) (img : bytes) :
  SignFirmware.image_of (fst (SignFirmware.sign_firmware e key_hex version))
  = Some img ->
  SignFirmware.firmware_file e' = Some img ->
  SignFirmware.sign_firmware e' key_hex' version'
  = ([], SignFirmware.SysExit
           (SignFirmware.FirmwareTooLarge 65536 SignFirmware.header_offset 64)).
Proof.
  intros I Hf.
  destruct (image_inv e key_hex version img I) as (_ & key & data & _ & L & D & E).
  assert (S : len img = 65536).
  { rewrite E. unfold len in *. rewrite length_app, hmac_length.
    unfold SignFirmware.header_offset in D. lia. }
  rewrite (run_too_large e' img key_hex' version' Hf)
    by (rewrite S; unfold SignFirmware.header_offset; lia).
  rewrite S. reflexivity.
Qed.

Lemma signed_image_is_too_large_to_sign_witness :
  SignFirmware.sign_firmware Samples.resign_env Scenario.key_hex Scenario.version
  = ([], SignFirmware.SysExit
           (SignFirmware.FirmwareTooLarge 65536 SignFirmware.header_offset 64)).
Proof.
  exact (signed_image_is_too_large_to_sign Scenario.env Samples.resign_env
           Scenario.key_hex Scenario.key_hex Scenario.version Scenario.version
           Samples.scenario_image scenario_image_written eq_refl).
Defined.

(** ** What the MAC input determines *)

Lemma app_inv_same_length {A : Type} (a a' b b' : list A) :
  length a = length a' -> a ++ b = a' ++ b' -> a = a' /\ b = b'.
Proof.
  revert a'. induction a as [|x a IH]; intros [|x' a'] L E;
    try discriminate L.
  - split; [reflexivity|exact E].
  - cbn in E. injection E as -> E. injection L as L.
    destruct (IH a' L E) as [-> ->]. split; reflexivity.
Qed.

Lemma le_bytes_4_inj (v w : Z) :
  0 <= v < 2 ^ 32 -> 0 <= w < 2 ^ 32 ->
  Struct.le_bytes 4 v = Struct.le_bytes 4 w -> v = w.
Proof.
  intros V W E. apply (f_equal Struct.int_from_bytes_little) in E.
  rewrite !int_from_le_bytes in E by assumption. exact E.
Qed.

Lemma header_fields_inj (v1 t1 v2 t2 : Z) :
  0 <= v1 < 2 ^ 32 -> 0 <= t1 < 2 ^ 32 ->
  0 <= v2 < 2 ^ 32 -> 0 <= t2 < 2 ^ 32 ->
  Image.header_fields v1 t1 = Image.header_fields v2 t2 -> v1 = v2 /\ t1 = t2.
Proof.
  intros V1 T1 V2 T2 E. unfold Image.header_fields, Image.header_words in E.
  cbn [map concat] in E.
  apply app_inv_same_length in E; [|now rewrite !le_bytes_length].
  destruct E as [_ E].
  apply app_inv_same_length in E; [|now rewrite !le_bytes_length].
  destruct E as [Ev E].
  apply app_inv_same_length in E; [|now rewrite !le_bytes_length].
  destruct E as [_ E].
  apply app_inv_same_length in E; [|now rewrite !le_bytes_length].
  destruct E as [_ E].
  apply app_inv_same_length in E; [|now rewrite !le_bytes_length].
  destruct E as [Et _].
  split; apply le_bytes_4_inj; assumption.
Qed.

(** X9. The MAC input fixes what is authenticated: two runs that feed the
    same bytes to the MAC have the same version, the same signing time and
    the same padded payload (their firmwares differ at most by trailing
    zero bytes). *)
Theorem mac_input_determines_fields (e1 e2 : SignFirmware.env)
    (key_hex1 key_hex2 : string) (version1 version2 : Z) (key1 key2 data : bytes) :
  SignFirmware.mac_input_of (fst (SignFirmware.sign_firmware e1 key_hex1 version1))
  = Some (key1, data) ->
  SignFirmware.mac_input_of (fst (SignFirmware.sign_firmware e2 key_hex2 version2))
  = Some (key2, data) ->
  version1 = version2
  /\ SignFirmware.now e1 = SignFirmware.now e2
  /\ exists fw1 fw2,
       SignFirmware.firmware_file e1 = Some fw1
       /\ SignFirmware.firmware_file e2 = Some fw2
       /\ Image.padded_payload fw1 = Image.padded_payload fw2.
Proof.
  intros H1 H2.
  destruct (mac_input_inv e1 key_hex1 version1 key1 data H1)
    as (fw1 & F1 & S1 & V1 & N1 & _ & _ & D1).
  destruct (mac_input_inv e2 key_hex2 version2 key2 data H2)
    as (fw2 & F2 & S2 & V2 & N2 & _ & _ & D2).
  rewrite D1 in D2. apply app_inv_same_length in D2.
  - destruct D2 as [P H].
    destruct (header_fields_inj _ _ _ _ V1 N1 V2 N2 H) as [-> ->].
    split; [reflexivity|]. split; [reflexivity|].
    exists fw1, fw2. repeat split; assumption.
  - pose proof (padded_payload_length fw1 S1) as P1.
    pose proof (padded_payload_length fw2 S2) as P2.
    unfold len in *. lia.
Qed.

Lemma longer_run_mac_input :
  SignFirmware.mac_input_of
    (fst (SignFirmware.sign_firmware Samples.longer_env Scenario.key_hex_spaced
            Scenario.version))
  = Some (Scenario.key, Samples.scenario_data).
Proof.
  rewrite (run_signs Samples.longer_env (Scenario.payload ++ zeros 1)
             Scenario.key_hex_spaced Scenario.version eq_refl
             ltac:(vm_compute; discriminate)
             ltac:(unfold Scenario.version; lia)
             ltac:(cbn; unfold Scenario.timestamp; lia)
             eq_refl Scenario.key ltac:(vm_compute; reflexivity) eq_refl).
  cbv zeta. cbn [fst SignFirmware.mac_input_of].
  rewrite padded_payload_zeros by (vm_compute; discriminate).
  reflexivity.
Qed.

Lemma mac_input_determines_fields_witness :
  Scenario.version = Scenario.version
  /\ SignFirmware.now Scenario.env = SignFirmware.now Samples.longer_env
  /\ exists fw1 fw2,
       SignFirmware.firmware_file Scenario.env = Some fw1
       /\ SignFirmware.firmware_file Samples.longer_env = Some fw2
       /\ Image.padded_payload fw1 = Image.padded_payload fw2.
Proof.
  exact (mac_input_determines_fields Scenario.env Samples.longer_env
           Scenario.key_hex Scenario.key_hex_spaced Scenario.version Scenario.version
           Scenario.key Scenario.key Samples.scenario_data
           scenario_mac_input longer_run_mac_input).
Defined.

(** ** Key strings *)

Lemma hex_digit_range (c : ascii) (d : Z) :
  Hex.hex_digit c = Some d -> 0 <= d < 16 /\ Hex.is_space c = false.
Proof.
  unfold Hex.hex_digit, Hex.is_space.
  set (n := Z.of_N (N_of_ascii c)).
  destruct (Z.leb_spec 48 n), (Z.leb_spec n 57), (Z.leb_spec 97 n),
    (Z.leb_spec n 102), (Z.leb_spec 65 n), (Z.leb_spec n 70);
    cbn [andb]; intro E; try discriminate E; injection E as <-;
    (split; [lia|]);
    destruct (Z.leb_spec 9 n), (Z.leb_spec n 13), (Z.eqb_spec n 32);
    cbn [andb orb]; try reflexivity; lia.
Qed.

(** [bytes.fromhex] on a string of hexadecimal digits: one byte per pair,
    [ValueError] when a digit is left over. *)
Lemma fromhex_digit_string (n : nat) :
  forall s, (String.length s <= n)%nat -> HexText.all_hex_digits s = true ->
  (Nat.even (String.length s) = true ->
   exists key, Hex.fromhex s = Some key
               /\ (2 * length key = String.length s)%nat)
  /\ (Nat.even (String.length s) = false -> Hex.fromhex s = None).
Proof.
  induction n as [|n IH]; intros s L A.
  - destruct s; [|cbn in L; lia]. split; [|discriminate].
    intros _. exists []. split; reflexivity.
  - destruct s as [|c s]; [split; [intros _; exists []; split; reflexivity
                                  |discriminate]|].
    cbn [HexText.all_hex_digits] in A.
    destruct (Hex.hex_digit c) as [top|] eqn:C; [|discriminate A].
    destruct (hex_digit_range c top C) as [_ Sp].
    destruct s as [|d s].
    + split; [discriminate|]. intros _. cbn [Hex.fromhex]. rewrite Sp, C. reflexivity.
    + cbn [HexText.all_hex_digits] in A.
      destruct (Hex.hex_digit d) as [bot|] eqn:D; [|discriminate A].
      cbn [String.length] in *.
      destruct (IH s ltac:(lia) A) as [Ev Od].
      cbn [Hex.fromhex]. rewrite Sp, C, D.
      change (Nat.even (S (S (String.length s)))) with (Nat.even (String.length s)).
      split.
      * intro E. destruct (Ev E) as (key & K & Lk). rewrite K.
        eexists. split; [reflexivity|]. cbn [length]. lia.
      * intro E. rewrite (Od E). reflexivity.
Qed.

Section HexKey.
Import SignFirmware.

Variables (e : env) (fw : bytes) (key_hex : string) (version : Z).
Hypothesis Hfile : firmware_file e = Some fw.
Hypothesis Hsize : len fw <= header_offset.
Hypothesis Hversion : 0 <= version < 2 ^ 32.
Hypothesis Hnow : 0 <= now e < 2 ^ 32.
Hypothesis Hdigits : HexText.all_hex_digits key_hex = true.

(** X10. For a key string made of hexadecimal digits only (the form the
    usage text asks for), the key gate is a test of the string's length:
    64 digits pass and the MAC is computed with the 32 decoded bytes; an
    odd number of digits ends the run with the hex-format diagnostic; any
    other even number [n] ends it with the length diagnostic reporting
    [4 * n] bits and [n] characters. *)
Theorem hex_digit_key_gate_is_a_length_test :
  (String.length key_hex = 64%nat ->
   exists key,
     Hex.fromhex key_hex = Some key /\ length key = 32%nat
     /\ mac_input_of (fst (sign_firmware e key_hex version))
        = Some (key, Image.padded_payload fw ++ Image.header_fields version (now e)))
  /\ (Nat.even (String.length key_hex) = false ->
      sign_firmware e key_hex version = ([], SysExit InvalidHexKey))
  /\ (Nat.even (String.length key_hex) = true -> String.length key_hex <> 64%nat ->
      sign_firmware e key_hex version
      = ([], SysExit (KeyNot256Bits (4 * Z.of_nat (String.length key_hex))
                        (Z.of_nat (String.length key_hex))))).
Proof.
  destruct (fromhex_digit_string (String.length key_hex) key_hex (le_n _) Hdigits)
    as [Ev Od].
  split; [|split].
  - intro L. destruct (Ev ltac:(rewrite L; reflexivity)) as (key & K & Lk).
    exists key. split; [exact K|]. split; [lia|].
    rewrite run_table_eq. unfold Gates.run_table. rewrite Hfile.
    destruct (Z.gtb_spec (len fw) header_offset) as [G|_]; [lia|].
    replace (Gates.fits_u32 version && Gates.fits_u32 (now e)) with true
      by (symmetry; apply andb_true_iff; split; apply fits_u32_range; assumption).
    cbn [negb]. rewrite K.
    destruct (Z.eqb_spec (len key) 32) as [_|N]; [|unfold len in N; lia].
    cbn [negb]. cbv zeta. destruct (output_writable e); reflexivity.
  - intro O. exact (run_key_malformed e fw key_hex version Hfile Hsize Hversion Hnow (Od O)).
  - intros E N. destruct (Ev E) as (key & K & Lk).
    rewrite (run_key_length e fw key_hex version Hfile Hsize Hversion Hnow key K)
      by lia.
    unfold len. do 3 f_equal. lia.
Qed.

End HexKey.

Lemma hex_digit_key_gate_is_a_length_test_witness :
  exists key,
    Hex.fromhex Scenario.key_hex = Some key /\ length key = 32%nat
    /\ SignFirmware.mac_input_of
         (fst (SignFirmware.sign_firmware Scenario.env Scenario.key_hex
                 Scenario.version))
       = Some (key, Image.padded_payload Scenario.payload
                    ++ Image.header_fields Scenario.version
                         (SignFirmware.now Scenario.env)).
Proof.
  exact (proj1 (hex_digit_key_gate_is_a_length_test Scenario.env Scenario.payload
                  Scenario.key_hex Scenario.version eq_refl
                  ltac:(vm_compute; discriminate)
                  ltac:(unfold Scenario.version; lia)
                  ltac:(cbn; unfold Scenario.timestamp; lia)
                  eq_refl) eq_refl).
Defined.

(** ** Hexadecimal text of bytes *)

Lemma hex_digit_char (d : Z) :
  0 <= d < 16 -> Hex.hex_digit (Hex.digit_char d) = Some d.
Proof.
  intro R.
  assert (C : d = 0 \/ d = 1 \/ d = 2 \/ d = 3 \/ d = 4 \/ d = 5 \/ d = 6 \/ d = 7
              \/ d = 8 \/ d = 9 \/ d = 10 \/ d = 11 \/ d = 12 \/ d = 13 \/ d = 14
              \/ d = 15) by lia.
  repeat (destruct C as [->|C]; [reflexivity|]). subst d. reflexivity.
Qed.

(** X11. [bytes.fromhex] undoes [bytes.hex]: the text printed for the MAC
    (line 107) decodes to the 32 signature bytes, and the text of any 32
    bytes is a 64-digit key string that the key gate accepts as those
    bytes. *)
Theorem fromhex_of_hex (b : bytes) :
  Hex.fromhex (HexText.hex b) = Some b
  /\ String.length (HexText.hex b) = (2 * length b)%nat
  /\ HexText.all_hex_digits (HexText.hex b) = true
  /\ SignFirmware.decode_key (HexText.hex b)
     = if len b =? 32
       then SignFirmware.ret b
       else SignFirmware.stop
              (SignFirmware.SysExit
                 (SignFirmware.KeyNot256Bits (len b * 8)
                    (Z.of_nat (2 * length b)))).
Proof.
  assert (H : Hex.fromhex (HexText.hex b) = Some b
              /\ String.length (HexText.hex b) = (2 * length b)%nat
              /\ HexText.all_hex_digits (HexText.hex b) = true).
  2:{ destruct H as (F & L & A). split; [exact F|]. split; [exact L|].
      split; [exact A|]. unfold SignFirmware.decode_key. rewrite F, L.
      destruct (len b =? 32); reflexivity. }
  induction b as [|x t (IH & IL & IA)]; [repeat split|].
  pose proof (byte_val_range x) as R.
  assert (Hi : 0 <= byte_val x / 16 < 16)
    by (split; [apply Z.div_pos; lia|apply Z.div_lt_upper_bound; lia]).
  pose proof (Z.mod_pos_bound (byte_val x) 16 ltac:(lia)) as Lo.
  pose proof (hex_digit_char _ Hi) as Dh. pose proof (hex_digit_char _ Lo) as Dl.
  destruct (hex_digit_range _ _ Dh) as [_ Sp].
  cbn [HexText.hex Hex.fromhex HexText.all_hex_digits String.length length].
  rewrite Sp, Dh, Dl, IH, IL, IA. split; [|split; [lia|reflexivity]].
  replace (16 * (byte_val x / 16) + byte_val x mod 16) with (byte_val x)
    by (pose proof (Z.div_mod (byte_val x) 16 ltac:(lia)); lia).
  rewrite byte_of_val. reflexivity.
Qed.

(** ** The conversion tools on every input *)

(** What [bin2hex] writes for any word count, also a negative one. *)
Lemma bin2hex_any (data : bytes) (n : Z) :
  Bin2Hex.bin2hex data (Some n)
  = Some (map (Words.hex_line (Words.pad4 data))
              (filter (fun k => Z.of_nat k <? n)
                      (seq 0 (Words.word_count (Words.pad4 data))))
          ++ repeat Words.zero_line
               (Z.to_nat (n - Z.of_nat (Words.word_count (Words.pad4 data))))).
Proof.
  unfold Bin2Hex.bin2hex. cbv zeta. rewrite bin2hex_padding.
  destruct (pad4_length data) as [P _].
  set (buf := Words.pad4 data) in *. set (nw := Words.word_count buf) in *.
  assert (E : len buf = 4 * Z.of_nat nw) by (unfold len; lia).
  rewrite E, range_by_four.
  rewrite data_lines_filter by (apply groups_in_buffer; exact P).
  rewrite map_const, range_by_one. fold Words.zero_line.
  replace (4 * Z.of_nat nw / 4) with (Z.of_nat nw) by (Z.div_mod_to_equations; lia).
  reflexivity.
Qed.



(** X13. With a word count of zero or below, [bin2hex] writes nothing,
    whatever the input. *)
Theorem bin2hex_nonpositive_count_writes_nothing (data : bytes) (num_words : Z) :
  num_words <= 0 -> Bin2Hex.bin2hex data (Some num_words) = Some [].
Proof.
  intro N. rewrite bin2hex_any.
  replace (Z.to_nat (num_words - _)) with 0%nat by lia.
  cbn [repeat]. rewrite app_nil_r. do 2 f_equal.
  induction (seq 0 (Words.word_count (Words.pad4 data))) as [|k ks IH];
    [reflexivity|].
  cbn [filter]. destruct (Z.ltb_spec (Z.of_nat k) num_words); [lia|exact IH].
Qed.

Lemma bin2hex_nonpositive_count_writes_nothing_witness :
  Bin2Hex.bin2hex [x01; x02; x03; x04; x05] (Some (-1)) = Some [].
Proof.
  exact (bin2hex_nonpositive_count_writes_nothing [x01; x02; x03; x04; x05] (-1)
           ltac:(lia)).
Defined.

(** ** Reading the text back *)

Lemma substring_prefix (s t : string) :
  substring 0 (String.length s) (String.append s t) = s.
Proof.
  induction s as [|c s IH]; cbn.
  - destruct t; reflexivity.
  - now rewrite IH.
Qed.

Lemma substring_skip (a s : string) (k n : nat) :
  substring (String.length a + k) n (String.append a s) = substring k n s.
Proof. induction a as [|c a IH]; cbn; [reflexivity|exact IH]. Qed.

(** The four bytes of word [k], from its value. *)
Lemma le_bytes_le_word (buf : bytes) (k : nat) :
  (4 * k + 4 <= length buf)%nat ->
  Struct.le_bytes 4 (Words.le_word buf k) = slice buf (4 * k) (4 * k + 4).
Proof.
  intro L. rewrite slice_group by exact L.
  rewrite <- (le_bytes_from_bytes [nth (4 * k) buf x00; nth (4 * k + 1) buf x00;
                                   nth (4 * k + 2) buf x00; nth (4 * k + 3) buf x00]).
  cbn [length Struct.int_from_bytes_little]. f_equal.
  unfold Words.le_word. lia.
Qed.

(** A buffer of [4 * n] bytes is its [n] groups, in order. *)
Lemma concat_groups (n : nat) :
  forall buf : bytes, length buf = (4 * n)%nat ->
  concat (map (fun k => slice buf (4 * k) (4 * k + 4)) (seq 0 n)) = buf.
Proof.
  induction n as [|n IH]; intros buf L.
  - destruct buf; [reflexivity|discriminate L].
  - cbn [seq map concat]. rewrite <- seq_shift, map_map.
    transitivity (firstn 4 buf ++ skipn 4 buf); [|apply firstn_skipn].
    f_equal.
    transitivity (concat (map (fun k => slice (skipn 4 buf) (4 * k) (4 * k + 4))
                              (seq 0 n)));
      [|apply IH; rewrite length_skipn; lia].
    f_equal. apply map_ext. intro k. unfold slice.
    rewrite skipn_skipn. f_equal; [lia|]. f_equal. lia.
Qed.

Lemma words_to_bytes (buf : bytes) (n : nat) :
  length buf = (4 * n)%nat ->
  concat (map (fun k => Struct.le_bytes 4 (Words.le_word buf k)) (seq 0 n)) = buf.
Proof.
  intro L. transitivity (concat (map (fun k => slice buf (4 * k) (4 * k + 4))
                                      (seq 0 n)));
    [|exact (concat_groups n buf L)].
  f_equal. apply map_ext_in. intros k K. apply in_seq in K.
  apply le_bytes_le_word. lia.
Qed.

Lemma word_of_hex_line (buf : bytes) (k : nat) :
  Readback.word_of_line (Words.hex_line buf k) = Words.le_word buf k.
Proof.
  unfold Readback.word_of_line, Words.hex_line.
  destruct (format_08x_word _ (le_word_range buf k)) as [L V].
  rewrite <- L at 1. rewrite substring_prefix. exact V.
Qed.

(** X14. The text [bin2hex] writes without a word count holds the input:
    reading each line as a 32-bit number and laying the numbers out least
    significant byte first gives the input followed by its zero padding,
    so the first [len(data)] bytes are the input. *)
Theorem bin2hex_text_holds_the_input (data : bytes) :
  exists out,
    Bin2Hex.bin2hex data None = Some out
    /\ Readback.bytes_of_lines out = Words.pad4 data
    /\ firstn (length data) (Readback.bytes_of_lines out) = data.
Proof.
  rewrite bin2hex_all_lines. eexists. split; [reflexivity|].
  destruct (pad4_length data) as [P _].
  assert (E : Readback.bytes_of_lines
                (map (Words.hex_line (Words.pad4 data))
                     (seq 0 (Words.word_count (Words.pad4 data))))
              = Words.pad4 data).
  { unfold Readback.bytes_of_lines. rewrite map_map.
    etransitivity; [|exact (words_to_bytes _ _ P)]. f_equal.
    apply map_ext. intro k. now rewrite word_of_hex_line. }
  split; [exact E|]. rewrite E. unfold Words.pad4.
  rewrite firstn_app, firstn_all, Nat.sub_diag, firstn_O. apply app_nil_r.
Qed.

(** ** The tools on joined and on padded inputs *)

Lemma pad4_aligned (a : bytes) : (length a mod 4 = 0)%nat -> Words.pad4 a = a.
Proof. intro A. unfold Words.pad4. rewrite A. cbn. apply app_nil_r. Qed.

Lemma pad4_app_aligned (a b : bytes) :
  (length a mod 4 = 0)%nat -> Words.pad4 (a ++ b) = a ++ Words.pad4 b.
Proof.
  intro A. unfold Words.pad4. rewrite <- app_assoc, length_app.
  rewrite <- Nat.Div0.add_mod_idemp_l, A. reflexivity.
Qed.

Lemma pad4_zeros (data : bytes) (k : nat) :
  (k <= (4 - length data mod 4) mod 4)%nat ->
  Words.pad4 (data ++ zeros k) = Words.pad4 data.
Proof.
  intro K. unfold Words.pad4, zeros in *.
  rewrite <- app_assoc, <- repeat_app, length_app, repeat_length.
  rewrite <- Nat.Div0.add_mod_idemp_l.
  pose proof (Nat.mod_upper_bound (length data) 4 ltac:(lia)) as U.
  set (r := (length data mod 4)%nat) in *.
  do 2 f_equal.
  assert (C : (r = 0 \/ r = 1 \/ r = 2 \/ r = 3)%nat) by lia.
  destruct C as [C|[C|[C|C]]]; rewrite C in *; cbn in K;
    repeat (destruct k as [|k]; [reflexivity|]); lia.
Qed.

Lemma word_count_app (a c : bytes) :
  (length a mod 4 = 0)%nat ->
  Words.word_count (a ++ c) = (Words.word_count a + Words.word_count c)%nat
  /\ length a = (4 * Words.word_count a)%nat.
Proof.
  intro A. unfold Words.word_count. rewrite length_app.
  pose proof (Nat.div_mod_eq (length a) 4) as D. rewrite A in D.
  split; [|lia].
  replace (length a + length c)%nat with (length c + (length a / 4) * 4)%nat by lia.
  rewrite Nat.div_add by lia. lia.
Qed.

Lemma le_word_app_l (a c : bytes) (k : nat) :
  (4 * k + 4 <= length a)%nat -> Words.le_word (a ++ c) k = Words.le_word a k.
Proof.
  intro L. unfold Words.le_word. rewrite !app_nth1 by lia. reflexivity.
Qed.

Lemma le_word_app_r (a c : bytes) (n k : nat) :
  length a = (4 * n)%nat -> Words.le_word (a ++ c) (n + k) = Words.le_word c k.
Proof.
  intro L. unfold Words.le_word. rewrite !app_nth2 by lia.
  replace (4 * (n + k) - length a)%nat with (4 * k)%nat by lia.
  replace (4 * (n + k) + 1 - length a)%nat with (4 * k + 1)%nat by lia.
  replace (4 * (n + k) + 2 - length a)%nat with (4 * k + 2)%nat by lia.
  replace (4 * (n + k) + 3 - length a)%nat with (4 * k + 3)%nat by lia.
  reflexivity.
Qed.

Lemma seq_from (n m : nat) : seq n m = map (fun k => (n + k)%nat) (seq 0 m).
Proof.
  revert n. induction m as [|m IH]; intro n; [reflexivity|].
  cbn [seq map]. rewrite Nat.add_0_r. f_equal.
  rewrite (IH (S n)), <- seq_shift, map_map. apply map_ext. intro k. lia.
Qed.

(** The words of [a ++ c] when [a] ends on a word boundary: those of [a],
    then those of [c] with their indices moved up. *)
Lemma words_of_app {T : Type} (f : bytes -> nat -> T) (g : nat -> Z -> T)
    (a c : bytes) :
  (forall buf k, f buf k = g k (Words.le_word buf k)) ->
  (length a mod 4 = 0)%nat ->
  map (f (a ++ c)) (seq 0 (Words.word_count (a ++ c)))
  = map (f a) (seq 0 (Words.word_count a))
    ++ map (fun k => g (Words.word_count a + k)%nat (Words.le_word c k))
           (seq 0 (Words.word_count c)).
Proof.
  intros F A. destruct (word_count_app a c A) as [-> L].
  rewrite seq_app, map_app. cbn [Nat.add]. f_equal.
  - apply map_ext_in. intros k K. apply in_seq in K.
    rewrite !F, le_word_app_l by lia. reflexivity.
  - rewrite seq_from, map_map. apply map_ext. intro k.
    rewrite F, (le_word_app_r a c _ k L). reflexivity.
Qed.

(** X15. [bin2hex] works word by word: when the first part of an input
    ends on a four-byte boundary, the lines written for the whole input are
    the lines of the first part followed by the lines of the rest. *)
Theorem bin2hex_of_aligned_concatenation (a b : bytes) :
  (length a mod 4 = 0)%nat ->
  exists la lb,
    Bin2Hex.bin2hex a None = Some la
    /\ Bin2Hex.bin2hex b None = Some lb
    /\ Bin2Hex.bin2hex (a ++ b) None = Some (la ++ lb).
Proof.
  intro A. rewrite !bin2hex_all_lines.
  eexists. eexists. split; [reflexivity|]. split; [reflexivity|].
  rewrite (pad4_app_aligned a b A), (pad4_aligned a A). f_equal.
  rewrite (words_of_app Words.hex_line
             (fun _ w => String.append (Hex.format_08x w) nl) a (Words.pad4 b))
    by (reflexivity || exact A).
  reflexivity.
Qed.

Lemma bin2hex_of_aligned_concatenation_witness :
  exists la lb,
    Bin2Hex.bin2hex [x01; x02; x03; x04] None = Some la
    /\ Bin2Hex.bin2hex [x05] None = Some lb
    /\ Bin2Hex.bin2hex ([x01; x02; x03; x04] ++ [x05]) None = Some (la ++ lb).
Proof.
  exact (bin2hex_of_aligned_concatenation [x01; x02; x03; x04] [x05] eq_refl).
Defined.

(** X16. [make_imem] works word by word too, and numbers the words of the
    whole input: when the first part ends on a four-byte boundary, the
    rest gives the same assignments as alone, with every index moved up by
    the number of words of the first part. *)
Theorem make_imem_of_aligned_concatenation (a b : bytes) :
  (length a mod 4 = 0)%nat ->
  MakeImem.make_imem (a ++ b)
  = MakeImem.make_imem a
    ++ map (fun k => Readback.imem_entry (length a / 4 + k)
                       (Words.le_word (Words.pad4 b) k))
           (seq 0 (length (MakeImem.make_imem b)))
  /\ MakeImem.make_imem b
     = map (fun k => Readback.imem_entry k (Words.le_word (Words.pad4 b) k))
           (seq 0 (length (MakeImem.make_imem b))).
Proof.
  intro A. rewrite !make_imem_lines, length_map, length_seq.
  split; [|reflexivity].
  rewrite (pad4_app_aligned a b A), (pad4_aligned a A).
  exact (words_of_app Words.imem_text Readback.imem_entry a (Words.pad4 b)
           (fun _ _ => eq_refl) A).
Qed.

Lemma make_imem_of_aligned_concatenation_witness :
  MakeImem.make_imem ([x01; x02; x03; x04] ++ [x05])
  = MakeImem.make_imem [x01; x02; x03; x04]
    ++ map (fun k => Readback.imem_entry (length [x01; x02; x03; x04] / 4 + k)
                       (Words.le_word (Words.pad4 [x05]) k))
           (seq 0 (length (MakeImem.make_imem [x05]))).
Proof.
  exact (proj1 (make_imem_of_aligned_concatenation [x01; x02; x03; x04] [x05]
                  eq_refl)).
Defined.

(** X17. Neither tool records the exact length of its input: zero bytes
    appended inside the last word, up to the next four-byte boundary,
    change nothing in what [bin2hex] (with any word count) and [make_imem]
    produce. *)
Theorem zero_bytes_within_last_word_change_nothing (data : bytes) (k : nat)
    (num_words : option Z) :
  (k <= (4 - length data mod 4) mod 4)%nat ->
  Bin2Hex.bin2hex (data ++ zeros k) num_words = Bin2Hex.bin2hex data num_words
  /\ MakeImem.make_imem (data ++ zeros k) = MakeImem.make_imem data.
Proof.
  intro K. split.
  - destruct num_words as [n|].
    + now rewrite !bin2hex_any, (pad4_zeros data k K).
    + now rewrite !bin2hex_all_lines, (pad4_zeros data k K).
  - now rewrite !make_imem_lines, (pad4_zeros data k K).
Qed.

Lemma zero_bytes_within_last_word_change_nothing_witness :
  Bin2Hex.bin2hex ([x01; x02; x03; x04; x05] ++ zeros 3) (Some 3)
  = Bin2Hex.bin2hex [x01; x02; x03; x04; x05] (Some 3)
  /\ MakeImem.make_imem ([x01; x02; x03; x04; x05] ++ zeros 3)
     = MakeImem.make_imem [x01; x02; x03; x04; x05].
Proof.
  exact (zero_bytes_within_last_word_change_nothing [x01; x02; x03; x04; x05] 3
           (Some 3) ltac:(vm_compute; lia)).
Defined.

(** ** Reading the assignments back *)

Lemma entry_readback (i : nat) (w : Z) :
  0 <= w < 2 ^ 32 ->
  Readback.index_of_entry (Readback.imem_entry i w) = Z.of_nat i
  /\ Readback.word_of_entry (Readback.imem_entry i w) = w.
Proof.
  intro R. destruct (format_08x_word w R) as [L V].
  unfold Readback.index_of_entry, Readback.word_of_entry, Readback.imem_entry.
  set (d := Hex.str (Z.of_nat i)). set (f := Hex.format_08x w) in *.
  rewrite !string_length_append, L.
  change (String.length "    memory[") with 11%nat.
  change (String.length "] = 32'h") with 8%nat.
  change (String.length ";" + String.length nl)%nat with 2%nat.
  split.
  - replace (11 + (String.length d + (8 + (8 + 2))) - 29)%nat
      with (String.length d) by lia.
    change 11%nat with (String.length "    memory[" + 0)%nat.
    rewrite substring_skip, substring_prefix. apply str_value. lia.
  - replace (11 + (String.length d + (8 + (8 + 2))) - 10)%nat
      with (String.length "    memory["
            + (String.length d + (String.length "] = 32'h" + 0)))%nat
      by (cbn [String.length]; lia).
    rewrite !substring_skip.
    rewrite <- L, substring_prefix. exact V.
Qed.

(** X18. The text [make_imem] prints holds the input: line [i] carries
    index [i], and the words read back from the lines, laid out least
    significant byte first, are the input followed by its zero padding. *)
Theorem make_imem_text_holds_the_input (data : bytes) :
  map Readback.index_of_entry (MakeImem.make_imem data)
  = map Z.of_nat (seq 0 (length (MakeImem.make_imem data)))
  /\ concat (map (fun l => Struct.le_bytes 4 (Readback.word_of_entry l))
                 (MakeImem.make_imem data))
     = Words.pad4 data
  /\ firstn (length data)
       (concat (map (fun l => Struct.le_bytes 4 (Readback.word_of_entry l))
                    (MakeImem.make_imem data)))
     = data.
Proof.
  rewrite !make_imem_lines, length_map, length_seq, !map_map.
  destruct (pad4_length data) as [P _].
  assert (E : concat (map (fun k => Struct.le_bytes 4
                                      (Readback.word_of_entry
                                         (Words.imem_text (Words.pad4 data) k)))
                          (seq 0 (Words.word_count (Words.pad4 data))))
              = Words.pad4 data).
  { etransitivity; [|exact (words_to_bytes _ _ P)]. f_equal.
    apply map_ext. intro k.
    destruct (entry_readback k _ (le_word_range (Words.pad4 data) k)) as [_ W].
    change (Words.imem_text (Words.pad4 data) k)
      with (Readback.imem_entry k (Words.le_word (Words.pad4 data) k)).
    now rewrite W. }
  split; [|split].
  - apply map_ext. intro k.
    destruct (entry_readback k _ (le_word_range (Words.pad4 data) k)) as [I _].
    exact I.
  - exact E.
  - rewrite E. unfold Words.pad4.
    rewrite firstn_app, firstn_all, Nat.sub_diag, firstn_O. apply app_nil_r.
Qed.

(** ** The memory image behind a word count *)

Lemma bytes_of_lines_app (l1 l2 : list string) :
  Readback.bytes_of_lines (l1 ++ l2)
  = Readback.bytes_of_lines l1 ++ Readback.bytes_of_lines l2.
Proof. unfold Readback.bytes_of_lines. now rewrite map_app, concat_app. Qed.

Lemma bytes_of_zero_lines (m : nat) :
  Readback.bytes_of_lines (repeat Words.zero_line m) = zeros (4 * m).
Proof.
  induction m as [|m IH]; [reflexivity|].
  cbn [repeat]. change (Words.zero_line :: repeat Words.zero_line m)
    with ([Words.zero_line] ++ repeat Words.zero_line m).
  rewrite bytes_of_lines_app, IH.
  replace (4 * S m)%nat with (4 + 4 * m)%nat by lia.
  unfold zeros. rewrite repeat_app. f_equal.
Qed.

Lemma le_word_firstn (buf : bytes) (m k : nat) :
  (k < m)%nat -> Words.le_word (firstn (4 * m) buf) k = Words.le_word buf k.
Proof.
  intro K. unfold Words.le_word. rewrite !nth_firstn.
  destruct (Nat.ltb_spec (4 * k) (4 * m)); [|lia].
  destruct (Nat.ltb_spec (4 * k + 1) (4 * m)); [|lia].
  destruct (Nat.ltb_spec (4 * k + 2) (4 * m)); [|lia].
  destruct (Nat.ltb_spec (4 * k + 3) (4 * m)); [|lia].
  reflexivity.
Qed.

Lemma firstn_zeros (k n : nat) : firstn k (zeros n) = zeros (Nat.min k n).
Proof.
  revert n. induction k as [|k IH]; intros [|n]; cbn; try reflexivity.
  f_equal. apply IH.
Qed.

(** The first [m] word lines of a buffer stand for its first [4 * m]
    bytes. *)
Lemma bytes_of_first_lines (buf : bytes) (m : nat) :
  (4 * m <= length buf)%nat ->
  Readback.bytes_of_lines (map (Words.hex_line buf) (seq 0 m)) = firstn (4 * m) buf.
Proof.
  intro L. unfold Readback.bytes_of_lines. rewrite map_map.
  etransitivity;
    [|exact (words_to_bytes (firstn (4 * m) buf) m
               ltac:(rewrite length_firstn; lia))].
  f_equal. apply map_ext_in. intros k K. apply in_seq in K.
  rewrite word_of_hex_line, le_word_firstn by lia. reflexivity.
Qed.

(** X19. With a word count [num_words >= 0], the text [bin2hex] writes
    stands for a memory image of exactly [num_words] words: the input,
    zero-padded, cut after [4 * num_words] bytes or filled with zero bytes
    up to that size. *)
Theorem bin2hex_count_fixes_the_image_size (data : bytes) (num_words : Z) :
  0 <= num_words ->
  exists out,
    Bin2Hex.bin2hex data (Some num_words) = Some out
    /\ Readback.bytes_of_lines out
       = firstn (4 * Z.to_nat num_words)
           (Words.pad4 data ++ zeros (4 * Z.to_nat num_words))
    /\ len (Readback.bytes_of_lines out) = 4 * num_words.
Proof.
  intro N.
  replace (Some num_words) with (Some (Z.of_nat (Z.to_nat num_words)))
    by (now rewrite Z2Nat.id).
  rewrite bin2hex_lines.
  set (m := Z.to_nat num_words). set (buf := Words.pad4 data).
  set (nw := Words.word_count buf).
  destruct (pad4_length data) as [P _]. fold buf nw in P.
  eexists. split; [reflexivity|].
  assert (E : Readback.bytes_of_lines
                (map (Words.hex_line buf) (seq 0 (Nat.min nw m))
                 ++ repeat Words.zero_line (m - nw))
              = firstn (4 * m) (buf ++ zeros (4 * m))).
  { rewrite bytes_of_lines_app, bytes_of_zero_lines, bytes_of_first_lines by lia.
    rewrite firstn_app. destruct (Nat.le_gt_cases m nw) as [C|C].
    - replace (Nat.min nw m) with m by lia.
      replace (m - nw)%nat with 0%nat by lia.
      replace (4 * m - length buf)%nat with 0%nat by lia.
      reflexivity.
    - replace (Nat.min nw m) with nw by lia. rewrite <- P.
      rewrite !firstn_all2 by lia. f_equal.
      rewrite firstn_zeros. f_equal. lia. }
  split; [exact E|]. rewrite E. unfold len.
  rewrite length_firstn, length_app, zeros_length. lia.
Qed.

Lemma bin2hex_count_fixes_the_image_size_witness :
  exists out,
    Bin2Hex.bin2hex [x01; x02; x03; x04; x05] (Some 3) = Some out
    /\ Readback.bytes_of_lines out
       = firstn (4 * Z.to_nat 3)
           (Words.pad4 [x01; x02; x03; x04; x05] ++ zeros (4 * Z.to_nat 3))
    /\ len (Readback.bytes_of_lines out) = 4 * 3.
Proof.
  exact (bin2hex_count_fixes_the_image_size [x01; x02; x03; x04; x05] 3
           ltac:(lia)).
Defined.
